(** * WatchTurm Control Room: snapshot correlator, verified model

    A shallow embedding of the parts of [MVP1/snapshot/snapshot.py] and
    [MVP1/snapshot/file_utils.py] that decide the properties stated in the
    system specification, followed by the theorems about them.

    Conventions of the embedding:
    - Python [str] values are Rocq strings read as sequences of ASCII
      characters (code points below 128); the Unicode-only behaviour of
      [str.strip], [str.lower] and [\d] is outside the model.
    - A dictionary whose keys are fixed by the code is a record; a
      dictionary handled generically (copied, [setdefault], serialised) is
      an association list in insertion order.
    - Calls to the outside world (HTTP, the clock, the file system) are
      passed in as arguments or threaded as explicit state. *)

From Stdlib Require Import ZArith QArith Qcanon Ascii String List Bool Lia.
From stdpp Require Import base option numbers list strings gmap.

Local Open Scope Z_scope.

(** ** Python string primitives *)

Module PyStr.

(** [str.isspace] on one ASCII character: TAB..CR, FS..US and SPACE. *)
Definition is_space (c : ascii) : bool :=
  let n := N_of_ascii c in
  (((9 <=? n) && (n <=? 13)) || ((28 <=? n) && (n <=? 32)))%N.

Definition lower_char (c : ascii) : ascii :=
  let n := N_of_ascii c in
  if ((65 <=? n) && (n <=? 90))%N then ascii_of_N (n + 32) else c.

Definition upper_char (c : ascii) : ascii :=
  let n := N_of_ascii c in
  if ((97 <=? n) && (n <=? 122))%N then ascii_of_N (n - 32) else c.

Definition is_digit (c : ascii) : bool :=
  let n := N_of_ascii c in ((48 <=? n) && (n <=? 57))%N.

Fixpoint map_chars (f : ascii → ascii) (s : string) : string :=
  match s with
  | EmptyString => EmptyString
  | String c t => String (f c) (map_chars f t)
  end.

(** [s.lower()] and [s.upper()] *)
Definition lower : string → string := map_chars lower_char.
Definition upper : string → string := map_chars upper_char.

(** [s.lstrip()] *)
Fixpoint lstrip (s : string) : string :=
  match s with
  | EmptyString => EmptyString
  | String c t => if is_space c then lstrip t else s
  end.

(** [s.rstrip()]: drop the trailing run of whitespace. *)
Fixpoint rstrip (s : string) : string :=
  match s with
  | EmptyString => EmptyString
  | String c t =>
      match rstrip t with
      | EmptyString => if is_space c then EmptyString else String c EmptyString
      | t' => String c t'
      end
  end.

(** [s.strip()] *)
Definition strip (s : string) : string := rstrip (lstrip s).

(** [s.startswith(p)] *)
Fixpoint startswith (s p : string) {struct p} : bool :=
  match p, s with
  | EmptyString, _ => true
  | String a p', String b s' => Ascii.eqb a b && startswith s' p'
  | String _ _, EmptyString => false
  end.

(** [sub in s] *)
Fixpoint contains (sub s : string) : bool :=
  startswith s sub ||
  match s with
  | EmptyString => false
  | String _ t => contains sub t
  end.

(** Truthiness of a string: [bool(s)]. *)
Definition nonempty (s : string) : bool :=
  match s with EmptyString => false | _ => true end.

(** [a or b] on strings. *)
Definition or_else (a b : string) : string := if nonempty a then a else b.

(** [sep.join(parts)] *)
Fixpoint join (sep : string) (parts : list string) : string :=
  match parts with
  | [] => ""
  | [p] => p
  | p :: rest => p +:+ sep +:+ join sep rest
  end.

(** [s.split(c)] for a one-character separator: never returns [[]]. *)
Fixpoint split_on (c : ascii) (s : string) : list string :=
  match s with
  | EmptyString => [EmptyString]
  | String a t =>
      if Ascii.eqb a c then EmptyString :: split_on c t
      else match split_on c t with
           | [] => [String a EmptyString]
           | w :: ws => String a w :: ws
           end
  end.

(** [s.rstrip(c)] for a one-character set. *)
Fixpoint rstrip_char (c : ascii) (s : string) : string :=
  match s with
  | EmptyString => EmptyString
  | String a t =>
      match rstrip_char c t with
      | EmptyString => if Ascii.eqb a c then EmptyString else String a EmptyString
      | t' => String a t'
      end
  end.

(** [s < t] on strings: lexicographic on code points. *)
Definition lt (s t : string) : bool := String.ltb s t.

End PyStr.

(** ** Deployment stages *)

Inductive stage := DEV | QA | UAT | PROD.

Global Instance stage_eq_dec : EqDecision stage.
Proof. solve_decision. Defined.

Definition stage_order : list stage := [DEV; QA; UAT; PROD].

Definition stage_name (s : stage) : string :=
  match s with DEV => "DEV" | QA => "QA" | UAT => "UAT" | PROD => "PROD" end.

(** [_env_to_stage(env_name)]: the argument is [None] or a string;
    [(env_name or "")] maps both [None] and [""] to [""]. *)
Definition _env_to_stage (env_name : option string) : stage :=
  let n := PyStr.lower (PyStr.strip (default "" env_name)) in
  if negb (PyStr.nonempty n) then DEV
  else if PyStr.contains "prod" n then PROD
  else if PyStr.contains "uat" n then UAT
  else if String.eqb n "qa" || PyStr.contains "qa" n || String.eqb n "green" then QA
  else DEV.

(** [n] of [_env_to_stage]: the stripped, lower-cased environment name. *)
Definition env_name_norm (env_name : option string) : string :=
  PyStr.lower (PyStr.strip (default "" env_name)).

(** [sub] occurs in [s] as a contiguous substring. *)
Definition is_substring (sub s : string) : Prop :=
  ∃ pre post, s = pre +:+ sub +:+ post.

(** The stage rule as the specification words it: every keyword, [green]
    included, is looked for as a substring, in the order prod, uat,
    qa|green. Compared with [_env_to_stage] below. *)
Definition stage_by_substring (env_name : option string) : stage :=
  let n := env_name_norm env_name in
  if PyStr.contains "prod" n then PROD
  else if PyStr.contains "uat" n then UAT
  else if PyStr.contains "qa" n || PyStr.contains "green" n then QA
  else DEV.

(** ** Snapshot data model

    A snapshot is the JSON document of one run. Every field below is read by
    the code as [(d.get(k) or "")], so a missing key, [None] and the empty
    string are one value, the empty string. A warning is a small dictionary
    of strings, kept as an association list. *)

Definition warning : Type := list (string * string).

Record Component := mkComponent {
  comp_name : string;
  comp_repo : string;
  comp_tag : string;
  comp_branch : string;
  comp_deployedAt : string;
  comp_deployer : string;
  comp_deployerCommitUrl : string;
  comp_kustomizationUrl : string;
  comp_buildUrl : string;
  (** [None]: the component dictionary has no [warnings] key. *)
  comp_warnings : option (list warning);
}.

Record Environment := mkEnvironment {
  env_key : string;
  env_name : string;
  env_status : string;
  env_deployer : string;
  env_components : list Component;
  (** [None]: no [warnings] key on the environment. *)
  env_warnings : option (list warning);
}.

Record Project := mkProject {
  proj_key : string;
  proj_environments : list Environment;
}.

(** [snapshot.get("projects") or []] *)
Definition Snapshot : Type := list Project.

(** ** Environment status (the environment-level part of [main]) *)

(** [isinstance(c.get("warnings"), list) and len(c.get("warnings") or []) > 0] *)
Definition has_warnings (c : Component) : bool :=
  match comp_warnings c with
  | Some (_ :: _) => true
  | _ => false
  end.

(** [has_comp_warnings = any(... for c in env_components)] *)
Definition has_comp_warnings (env_components : list Component) : bool :=
  existsb has_warnings env_components.

Definition PARTIAL_COMPONENT_DATA : warning :=
  [("code", "PARTIAL_COMPONENT_DATA");
   ("message", "Some components have incomplete deployment metadata")].

(** What the monitoring block of [main] knows when it decides on its two
    warnings: whether any configured query came back [ok], and the status
    picked from the signals. [None]: monitoring is not used for the project. *)
Record dd_health := mkDdHealth {
  dd_any_ok : bool;
  dd_status : string;
}.

Definition datadog_env_warnings (dd : option dd_health) : list warning :=
  match dd with
  | None => []
  | Some h =>
      (if dd_any_ok h then []
       else [[("key", "datadog_no_data"); ("severity", "info");
              ("message", "Datadog enabled but no data returned for configured queries.")]])
      ++
      (if String.eqb (dd_status h) "degraded" || String.eqb (dd_status h) "unhealthy"
       then [[("key", "datadog_" +:+ dd_status h);
              ("severity", if String.eqb (dd_status h) "degraded" then "warn" else "error");
              ("message", "Datadog signals indicate: " +:+ dd_status h +:+ ".")]]
       else [])
  end.

(** [env_warnings] as [main] accumulates it for one environment:
    the component roll-up, the monitoring warnings, then
    [obs.get("envWarnings") or []] of the observability summary. *)
Definition collect_env_warnings (env_components : list Component)
    (dd : option dd_health) (obs_env_warnings : list warning) : list warning :=
  (if has_comp_warnings env_components then [PARTIAL_COMPONENT_DATA] else [])
  ++ datadog_env_warnings dd
  ++ obs_env_warnings.

(** [env_out] of [main]: [status] is ["warn" if env_warnings else "healthy"],
    and the [warnings] key is set only when the list is not empty. *)
Definition assemble_env (key name deployer : string) (env_components : list Component)
    (dd : option dd_health) (obs_env_warnings : list warning) : Environment :=
  let ws := collect_env_warnings env_components dd obs_env_warnings in
  {| env_key := key;
     env_name := name;
     env_status := match ws with [] => "healthy" | _ => "warn" end;
     env_deployer := deployer;
     env_components := env_components;
     env_warnings := match ws with [] => None | _ => Some ws end |}.

(** ** JSON values and the append-only event log *)

(** A JSON document as [json.loads] returns it. *)
#[warnings="-register-all"]
Inductive json :=
| JNull
| JBool (b : bool)
| JNum (n : Z)
| JStr (s : string)
| JArr (items : list json)
| JObj (fields : list (string * json)).

(** Python truthiness: [bool(v)]. *)
Definition truthy (v : json) : bool :=
  match v with
  | JNull => false
  | JBool b => b
  | JNum n => negb (n =? 0)
  | JStr s => PyStr.nonempty s
  | JArr items => match items with [] => false | _ => true end
  | JObj fields => match fields with [] => false | _ => true end
  end.

(** An event is a dictionary; [dict_get k d] is [d.get(k)], [None] when the
    key is absent. *)
Definition event : Type := list (string * json).

Fixpoint dict_get {V} (k : string) (d : list (string * V)) : option V :=
  match d with
  | [] => None
  | (k', v) :: rest => if String.eqb k' k then Some v else dict_get k rest
  end.

(** [bool(event.get("id"))]: the guard of both append routines is its
    negation, [if not event.get("id"): continue]. *)
Definition has_id (ev : event) : bool :=
  match dict_get "id" ev with
  | Some v => truthy v
  | None => false
  end.

(** The two files [atomic_append_jsonl] touches: the log at [path] and the
    temporary file at [path + ".tmp"], each absent or a list of lines; a line
    is the event [json.dumps] wrote. Writes are modelled a line at a time. *)
Record jsonl_files := mkFiles {
  log_file : option (list event);
  tmp_file : option (list event);
}.

(** Where an attempt of [atomic_append_jsonl] raises [IOError]/[OSError]. *)
Inductive io_fault :=
| NoFault
  (** while copying the log: the temp file is untouched ([None]) or holds
      the first [k] lines of the log *)
| CopyFails (copied : option nat)
  (** while appending, after the first [n] events were processed *)
| AppendFails (n : nat)
  (** [os.replace] and the fallback fail, the log is still there *)
| ReplaceFailsLogKept
  (** [os.replace] fails, the fallback unlinks the log, [os.rename] fails *)
| ReplaceFailsLogRemoved.

(** The lines one attempt writes for [events]: events without an id are
    skipped. *)
Definition lines_for (events : list event) : list event :=
  filter (λ ev, has_id ev = true) events.

(** One pass through the [try] body of [atomic_append_jsonl]; the boolean
    says whether it reached [return]. *)
Definition append_attempt (fs : jsonl_files) (events : list event)
    (fault : io_fault) : jsonl_files * bool :=
  (* copy existing content: [open(tmp_path, 'w')] truncates *)
  let copied :=
    match log_file fs, fault with
    | Some l, CopyFails None => (fs, false)
    | Some l, CopyFails (Some k) =>
        ({| log_file := Some l; tmp_file := Some (take k l) |}, false)
    | Some l, _ => ({| log_file := Some l; tmp_file := Some l |}, true)
    | None, _ => (fs, true)
    end in
  if negb (snd copied) then (fst copied, false) else
  let fs1 := fst copied in
  (* append: [open(tmp_path, 'a')] keeps what the file holds *)
  let old := default [] (tmp_file fs1) in
  match fault with
  | AppendFails n =>
      ({| log_file := log_file fs1;
          tmp_file := Some (old ++ lines_for (take n events)) |}, false)
  | _ =>
      let fs2 := {| log_file := log_file fs1;
                    tmp_file := Some (old ++ lines_for events) |} in
      match fault with
      | ReplaceFailsLogKept => (fs2, false)
      | ReplaceFailsLogRemoved =>
          ({| log_file := None; tmp_file := tmp_file fs2 |}, false)
      | _ => ({| log_file := tmp_file fs2; tmp_file := None |}, true)
      end
  end.

(** [for attempt in range(max_retries)]: [remaining] attempts are left,
    [faults attempt] is what happens in each. A failed attempt that is not
    the last leaves the files as they are and retries; the last one unlinks
    the temp file ([cleanup_ok] says whether the unlink worked) and raises.
    The result is the files and whether the call returned normally. *)
Fixpoint append_loop (remaining attempt : nat) (faults : nat → io_fault)
    (cleanup_ok : bool) (events : list event) (fs : jsonl_files)
    : jsonl_files * bool :=
  match remaining with
  | O => (fs, true)
  | S remaining' =>
      let '(fs', ok) := append_attempt fs events (faults attempt) in
      if ok then (fs', true)
      else match remaining' with
           | O => ((if cleanup_ok
                    then {| log_file := log_file fs'; tmp_file := None |}
                    else fs'), false)
           | S _ => append_loop remaining' (S attempt) faults cleanup_ok events fs'
           end
  end.

Definition atomic_append_jsonl (max_retries : nat) (faults : nat → io_fault)
    (cleanup_ok : bool) (events : list event) (fs : jsonl_files)
    : jsonl_files * bool :=
  append_loop max_retries 0 faults cleanup_ok events fs.

(** [_append_events_to_jsonl(events_by_project)]: flatten, skip events
    without an id, and append when something is left; [max_retries] is the
    default. *)
Definition _append_events_to_jsonl (events_by_project : list (string * list event))
    (faults : nat → io_fault) (cleanup_ok : bool) (fs : jsonl_files)
    : jsonl_files * bool :=
  let all_events :=
    flat_map (λ pe, filter (λ ev, has_id ev = true) (snd pe)) events_by_project in
  match all_events with
  | [] => (fs, true)
  | _ => atomic_append_jsonl 5 faults cleanup_ok all_events fs
  end.

(** The states of the two files reachable through the append path, from
    the state where neither file exists. *)
Inductive append_reachable : jsonl_files → Prop :=
| reach_init : append_reachable {| log_file := None; tmp_file := None |}
| reach_history fs events_by_project faults cleanup_ok :
    append_reachable fs →
    append_reachable
      (fst (_append_events_to_jsonl events_by_project faults cleanup_ok fs))
| reach_direct fs max_retries events faults cleanup_ok :
    append_reachable fs →
    append_reachable
      (fst (atomic_append_jsonl max_retries faults cleanup_ok events fs)).

(** Sample events: a tag-change event with its id, one with no [id] key,
    one with an empty id. *)
Definition sample_event : event :=
  [("id", JStr "abc:P1:qa:X:svc-v0.0.11"); ("kind", JStr "TAG_CHANGE");
   ("projectKey", JStr "P1"); ("toTag", JStr "svc-v0.0.11")].

Definition sample_event_no_id : event :=
  [("kind", JStr "TAG_CHANGE"); ("projectKey", JStr "P1")].

Definition sample_event_empty_id : event :=
  [("id", JStr ""); ("kind", JStr "TAG_CHANGE")].

Definition no_files : jsonl_files := {| log_file := None; tmp_file := None |}.

(** [s.replace(old, new)] for a non-empty [old]: occurrences are replaced
    left to right without overlap; [skip] counts the characters of a match
    still to be dropped. (Python's rule for an empty [old] is not needed by
    the code modelled here; the string is then returned as it is.) *)
Fixpoint replace_from (old new : string) (skip : nat) (s : string) : string :=
  match s with
  | EmptyString => EmptyString
  | String c t =>
      match skip with
      | S k => replace_from old new k t
      | O =>
          if PyStr.startswith s old
          then new +:+ replace_from old new (String.length old - 1) t
          else String c (replace_from old new 0 t)
      end
  end.

Definition py_replace (old new s : string) : string :=
  if PyStr.nonempty old then replace_from old new 0 s else s.

(** ** Time-aware PR to branch correlation *)

(** A parsed [datetime]: its instant in microseconds (UTC for an aware
    value, wall-clock for a naive one) and whether it carries an offset. *)
Record datetime := mkDatetime {
  dt_us : Z;
  dt_aware : bool;
}.

(** [a < b] on datetimes: comparing an aware with a naive value raises
    [TypeError], modelled by [None]. *)
Definition dt_lt (a b : datetime) : option bool :=
  if Bool.eqb (dt_aware a) (dt_aware b) then Some (dt_us a <? dt_us b) else None.

Record PullRequest := mkPR {
  pr_repo : string;
  pr_mergeSha : string;
  pr_mergedAt : string;
}.

Record Branch := mkBranch {
  br_name : string;
  br_sha : string;
  br_createdAt : string;
}.

(** One element of the list [correlate_prs_with_branches_time_aware]
    returns. *)
Record BranchLink := mkBranchLink {
  bl_branch : string;
  bl_createdAt : string;
  bl_sha : string;
  bl_prMergedAt : string;
}.

(** What the compare request of [github_check_commit_in_branch] came back
    with: an exception, or a status code and the [status] field of the
    body. *)
Inductive compare_reply :=
| CompareRaises
| CompareReply (status_code : Z) (status : string).

Section TimeAware.

(** [datetime.fromisoformat]; [None] when it raises. *)
Variable fromisoformat : string → option datetime.

(** The provider's answer to [GET .../compare/{branch}...{sha}]. *)
Variable github_compare : string → string → compare_reply.

(** [_parse_iso_safe(s)] *)
Definition _parse_iso_safe (s : string) : option datetime :=
  if negb (PyStr.nonempty s) then None
  else fromisoformat (py_replace "Z" "+00:00" s).

(** [github_check_commit_in_branch(owner, repo, commit_sha, branch, token)] *)
Definition github_check_commit_in_branch (commit_sha branch : string) : bool :=
  if negb (PyStr.nonempty commit_sha) || negb (PyStr.nonempty branch) then false
  else match github_compare branch commit_sha with
       | CompareRaises => false
       | CompareReply code status =>
           if code =? 404 then false
           else if negb (code =? 200) then false
           else let st := PyStr.lower status in
                String.eqb st "behind" || String.eqb st "identical" || String.eqb st "ahead"
       end.

(** [branch_name.startswith("release/") or branch_name in ("main", "master")] *)
Definition important_branch (branch_name : string) : bool :=
  PyStr.startswith branch_name "release/" ||
  String.eqb branch_name "main" || String.eqb branch_name "master".

Definition branch_link (merged_at : string) (b : Branch) : BranchLink :=
  {| bl_branch := PyStr.strip (br_name b);
     bl_createdAt := PyStr.strip (br_createdAt b);
     bl_sha := PyStr.strip (br_sha b);
     bl_prMergedAt := merged_at |}.

(** The body of the inner loop, for one branch: the links it appends, or
    [None] when the comparison of the two datetimes raises. *)
Definition correlate_branch (merge_sha merged_at : string) (merged_dt : datetime)
    (b : Branch) : option (list BranchLink) :=
  let branch_name := PyStr.strip (br_name b) in
  let branch_created_at := PyStr.strip (br_createdAt b) in
  match _parse_iso_safe branch_created_at with
  | None => Some []
  | Some branch_created_dt =>
      before ← dt_lt branch_created_dt merged_dt;
      if (before : bool) then Some []
      else
        let branch_sha := PyStr.strip (br_sha b) in
        if String.eqb branch_sha merge_sha then Some [branch_link merged_at b]
        else if important_branch branch_name then
          if github_check_commit_in_branch merge_sha branch_name
          then Some [branch_link merged_at b] else Some []
        else Some []
  end.

(** Run [f] over a list, appending what each call yields; an exception in
    one call aborts the whole loop. *)
Fixpoint for_each {A B} (f : A → option (list B)) (l : list A) : option (list B) :=
  match l with
  | [] => Some []
  | x :: rest =>
      r ← f x;
      rs ← for_each f rest;
      Some (r ++ rs)
  end.

(** The body of the outer loop, for one PR. *)
Definition correlate_pr (repo_branches : list Branch) (pr : PullRequest)
    : option (list BranchLink) :=
  let merge_sha := PyStr.strip (pr_mergeSha pr) in
  let merged_at := PyStr.strip (pr_mergedAt pr) in
  match _parse_iso_safe merged_at with
  | None => Some []
  | Some merged_dt =>
      if negb (PyStr.nonempty merge_sha) then Some []
      else for_each (correlate_branch merge_sha merged_at merged_dt) repo_branches
  end.

(** [correlate_prs_with_branches_time_aware(prs, repo_branches, ...)] *)
Definition correlate_prs_with_branches_time_aware (prs : list PullRequest)
    (repo_branches : list Branch) : option (list BranchLink) :=
  match prs, repo_branches with
  | [], _ | _, [] => Some []
  | _, _ => for_each (correlate_pr repo_branches) prs
  end.

(** The condition of the specification for attaching branch [b] to [pr]:
    the PR has a merge sha and a parseable merge time, the branch has a
    parseable creation time not before the merge, and the merge commit is
    reachable (tip equality, or the full check on an important branch). *)
Definition attachable (pr : PullRequest) (b : Branch) : Prop :=
  let merge_sha := PyStr.strip (pr_mergeSha pr) in
  merge_sha ≠ "" ∧
  ∃ merged_dt created_dt,
    _parse_iso_safe (PyStr.strip (pr_mergedAt pr)) = Some merged_dt ∧
    _parse_iso_safe (PyStr.strip (br_createdAt b)) = Some created_dt ∧
    dt_aware created_dt = dt_aware merged_dt ∧
    dt_us merged_dt ≤ dt_us created_dt ∧
    (PyStr.strip (br_sha b) = merge_sha ∨
     (important_branch (PyStr.strip (br_name b)) = true ∧
      github_check_commit_in_branch merge_sha (PyStr.strip (br_name b)) = true)).

(** The two timestamps parse, one with an offset and one without: their
    comparison raises. *)
Definition incomparable (pr : PullRequest) (b : Branch) : Prop :=
  PyStr.strip (pr_mergeSha pr) ≠ "" ∧
  ∃ merged_dt created_dt,
    _parse_iso_safe (PyStr.strip (pr_mergedAt pr)) = Some merged_dt ∧
    _parse_iso_safe (PyStr.strip (br_createdAt b)) = Some created_dt ∧
    dt_aware created_dt ≠ dt_aware merged_dt.

End TimeAware.

(** ** Observability collector *)

(** Metric values are Python floats; the model computes with exact
    rationals, which agrees with the floats wherever the float product is
    exact (as for 0.37 * 100.0). *)
Definition metric_value : Type := Qc.

Definition Qc_of_ratio (num : Z) (den : positive) : Qc := Q2Qc (Qmake num den).

(** [_dd_norm_pct(v)] *)
Definition _dd_norm_pct (v : option Qc) : option Qc :=
  match v with
  | None => None
  | Some fv =>
      if bool_decide (0 ≤ fv)%Qc && bool_decide (fv ≤ Qc_of_ratio 3 2)%Qc
      then Some (fv * Qc_of_Z 100)%Qc else Some fv
  end.

(** [_dd_norm_duration_ms(v)] *)
Definition _dd_norm_duration_ms (v : option Qc) : option Qc :=
  match v with
  | None => None
  | Some fv =>
      if bool_decide (0 ≤ fv)%Qc && bool_decide (fv ≤ Qc_of_Z 50)%Qc
      then Some (fv * Qc_of_Z 1000)%Qc else Some fv
  end.

(** [_dd_join_tags(tags)] *)
Definition _dd_join_tags (tags : list string) : string :=
  PyStr.join ","
    (map PyStr.strip
         (filter (λ t, PyStr.nonempty (PyStr.strip t) = true) tags)).

(** [_dd_build_selector_tags(env_selector, component_selector)]; a selector
    is a dictionary of strings, [None] when not configured. *)
Definition selector : Type := list (string * string).

Definition selector_tag (prefix key : string) (sel : selector) : list string :=
  match dict_get key sel with
  | Some v => [prefix +:+ ":" +:+ v]
  | None => []
  end.

Definition selector_truthy (sel : option selector) : bool :=
  match sel with Some (_ :: _) => true | _ => false end.

Definition _dd_build_selector_tags (env_selector component_selector : option selector)
    : list string :=
  (if selector_truthy env_selector
   then selector_tag "kube_namespace" "namespace" (default [] env_selector)
        ++ selector_tag "kube_cluster_name" "cluster" (default [] env_selector)
   else [])
  ++
  (if selector_truthy component_selector
   then selector_tag "service" "service" (default [] component_selector)
        ++ selector_tag "kube_deployment" "kube_deployment" (default [] component_selector)
   else []).

(** [metric_specs]: key, query template and normaliser, in dictionary
    order. *)
Definition metric_specs : list (string * (string * (option Qc → option Qc))) :=
  [("cpuPct", ("avg:system.cpu.user{$tags}", _dd_norm_pct));
   ("memPct", ("avg:system.mem.used_pct{$tags}", _dd_norm_pct));
   ("pods", ("sum:kubernetes.pods.running{$tags}", λ x, x));
   ("errorRatePct",
    ("100 * (sum:trace.http.request.errors{$tags}.as_count() / sum:trace.http.request.hits{$tags}.as_count())",
     λ x, x));
   ("p95ms", ("p95:trace.http.request.duration{$tags}", _dd_norm_duration_ms))].

(** [spec["query"].replace("{$tags}", f"{{{tags_str}}}" if tags_str else "")] *)
Definition metric_query (template tags_str : string) : string :=
  py_replace "{$tags}"
    (if PyStr.nonempty tags_str then "{" +:+ tags_str +:+ "}" else "") template.

(** The summary [datadog_collect_observability] returns, with the parts of
    [meta] that depend on the run. *)
Record observability := mkObservability {
  obs_projectKey : string;
  obs_envKey : string;
  obs_usedTags : option (list string);
  obs_metrics : list (string * option Qc);
  obs_reasons : list (string * string);
  obs_deterministic : bool;
}.

Definition no_metrics : list (string * option Qc) :=
  [("cpuPct", None); ("memPct", None); ("pods", None);
   ("errorRatePct", None); ("p95ms", None)].

Section Observability.

(** [datadog_query_timeseries]: the reply to the [n]-th query of the run,
    a value (or [None]) and a reason. *)
Variable datadog_query_timeseries : nat → string → option Qc * string.

(** What one pass over [metric_specs] produces. *)
Record metric_pass := mkPass {
  pass_metrics : list (string * option Qc);
  pass_reasons : list (string * string);
  pass_ok_any : bool;
  pass_queries : list string;
}.

(** The inner loop [for k, spec in metric_specs.items()], starting at
    query number [n]. *)
Fixpoint query_specs (n : nat) (tags_str : string)
    (specs : list (string * (string * (option Qc → option Qc)))) : metric_pass :=
  match specs with
  | [] => mkPass [] [] false []
  | (k, (template, norm)) :: rest =>
      let q := metric_query template tags_str in
      let '(v, reason) := datadog_query_timeseries n q in
      let ok := String.eqb reason "ok" && bool_decide (v ≠ None) in
      let p := query_specs (S n) tags_str rest in
      mkPass ((k, if ok then norm v else None) :: pass_metrics p)
             ((k, reason) :: pass_reasons p)
             (ok || pass_ok_any p)
             (q :: pass_queries p)
  end.

(** The candidate loop [for env_tag in tag_candidates]: the chosen tag set
    with its pass, if any, and the queries issued. *)
Fixpoint try_candidates (n : nat) (base_tags tag_candidates : list string)
    : option (list string * metric_pass) * list string :=
  match tag_candidates with
  | [] => (None, [])
  | env_tag :: rest =>
      let tagset := base_tags ++ [env_tag] in
      let p := query_specs n (_dd_join_tags tagset) metric_specs in
      if pass_ok_any p then (Some (tagset, p), pass_queries p)
      else
        let '(chosen, qs) :=
          try_candidates (n + length metric_specs) base_tags rest in
        (chosen, pass_queries p ++ qs)
  end.

Definition no_data_warning (project_key env_key how : string) : warning :=
  [("type", "datadog_observability_no_data"); ("severity", "warn");
   ("projectKey", project_key); ("envKey", env_key);
   ("message", "Datadog returned no observability data for " +:+ project_key
                 +:+ "/" +:+ env_key +:+ how)].

(** [datadog_collect_observability(...)]: the summary, the warnings and
    the queries sent, in order. *)
Definition datadog_collect_observability (project_key env_key : string)
    (base_tags tag_candidates : list string)
    (env_selector component_selector : option selector)
    : observability * list warning * list string :=
  let deterministic := bool_decide (env_selector ≠ None) in
  if selector_truthy env_selector then
    let selector_tags0 := _dd_build_selector_tags env_selector component_selector in
    let selector_tags :=
      match base_tags with [] => selector_tags0 | _ => base_tags ++ selector_tags0 end in
    let p := query_specs 0 (_dd_join_tags selector_tags) metric_specs in
    (mkObservability project_key env_key (Some selector_tags)
       (pass_metrics p) (pass_reasons p) deterministic,
     if existsb (λ kv, bool_decide (snd kv ≠ None)) (pass_metrics p) then []
     else [no_data_warning project_key env_key " using deterministic selector."],
     pass_queries p)
  else
    match try_candidates 0 base_tags tag_candidates with
    | (Some (tagset, p), qs) =>
        (mkObservability project_key env_key (Some tagset)
           (pass_metrics p) (pass_reasons p) deterministic, [], qs)
    | (None, qs) =>
        (mkObservability project_key env_key None no_metrics
           (map (λ s, (fst s, "no_data")) metric_specs) deterministic,
         [no_data_warning project_key env_key
            " using common env tags (env/environment/k8s namespace)."],
         qs)
    end.

End Observability.

(** The monitoring provider of the worked example: every query filtered by
    [env:qa] has no data; the CPU query filtered by [kube_namespace:qa]
    returns 0.37. *)
Definition example_datadog (n : nat) (q : string) : option Qc * string :=
  if String.eqb q "avg:system.cpu.user{kube_namespace:qa}"
  then (Some (Qc_of_ratio 37 100), "ok")
  else (None, "no_data").

(** ** Dictionaries with structured keys *)

(** [d.get(k)] for a dictionary kept as an association list. *)
Fixpoint kv_get {K V} `{EqDecision K} (k : K) (d : list (K * V)) : option V :=
  match d with
  | [] => None
  | (k', v) :: rest => if decide (k' = k) then Some v else kv_get k rest
  end.

(** [d[k] = v]: an existing key keeps its place, a new key goes last. *)
Fixpoint kv_set {K V} `{EqDecision K} (k : K) (v : V) (d : list (K * V)) : list (K * V) :=
  match d with
  | [] => [(k, v)]
  | (k', v') :: rest =>
      if decide (k' = k) then (k, v) :: rest else (k', v') :: kv_set k v rest
  end.

(** [d.setdefault(k, []).append(x)] *)
Fixpoint kv_append {K V} `{EqDecision K} (k : K) (x : V) (d : list (K * list V))
    : list (K * list V) :=
  match d with
  | [] => [(k, [x])]
  | (k', xs) :: rest =>
      if decide (k' = k) then (k, xs ++ [x]) :: rest else (k', xs) :: kv_append k x rest
  end.

(** ** Release history: tag-change events *)

(** [_normalize_env_key(key)] *)
Definition _normalize_env_key (key : string) : option string :=
  if negb (PyStr.nonempty key) then None
  else let k := PyStr.strip key in
       if negb (PyStr.nonempty k) then None else Some (PyStr.lower k).

(** [normalize_tag(tag)]: strip, then [re.sub(r"^v\.(?=\d)", "v", t)] and
    [re.sub(r"-v\.(?=\d)", "-v", t)]. *)
Definition drop_leading_v_dot (t : string) : string :=
  match t with
  | String "v" (String "." (String d rest as tl)) =>
      if PyStr.is_digit d then String "v" tl else t
  | _ => t
  end.

Fixpoint drop_dash_v_dot (t : string) : string :=
  match t with
  | EmptyString => EmptyString
  | String c t' =>
      match c, t' with
      | "-"%char, String "v" (String "." (String d rest as tl)) =>
          if PyStr.is_digit d then String "-" (String "v" (drop_dash_v_dot tl))
          else String c (drop_dash_v_dot t')
      | _, _ => String c (drop_dash_v_dot t')
      end
  end.

Definition normalize_tag (tag : string) : string :=
  if negb (PyStr.nonempty tag) then ""
  else drop_dash_v_dot (drop_leading_v_dot (PyStr.strip tag)).

(** The longest prefix of digits, and what follows it: the regular
    expression [\d+] followed by a non-digit has no other way to match. *)
Fixpoint span_digits (s : string) : string * string :=
  match s with
  | EmptyString => (EmptyString, EmptyString)
  | String c t =>
      if PyStr.is_digit c
      then let '(ds, rest) := span_digits t in (String c ds, rest)
      else (EmptyString, s)
  end.

(** [v\d+\.\d+\.(\d+)$] matched at the start of [s]: group 1. *)
Definition match_version_at (s : string) : option string :=
  match s with
  | String "v" r0 =>
      let '(d1, r1) := span_digits r0 in
      match PyStr.nonempty d1, r1 with
      | true, String "." r2 =>
          let '(d2, r3) := span_digits r2 in
          match PyStr.nonempty d2, r3 with
          | true, String "." r4 =>
              let '(d3, r5) := span_digits r4 in
              if PyStr.nonempty d3 && negb (PyStr.nonempty r5) then Some d3 else None
          | _, _ => None
          end
      | _, _ => None
      end
  | _ => None
  end.

(** [re.search(r"v\d+\.\d+\.(\d+)$", s)]: the leftmost start that matches. *)
Fixpoint search_version (s : string) : option string :=
  match match_version_at s with
  | Some d => Some d
  | None =>
      match s with
      | EmptyString => None
      | String _ t => search_version t
      end
  end.

(** [extract_build_number(tag)] *)
Definition extract_build_number (tag : string) : string :=
  let t := normalize_tag tag in
  if negb (PyStr.nonempty t) then ""
  else default "" (search_version t).

(** The element after the first ["commit"] of [parts], when there is one:
    [parts[parts.index("commit") + 1]]. *)
Fixpoint after_commit (parts : list string) : option string :=
  match parts with
  | [] => None
  | p :: rest =>
      if String.eqb p "commit" then head rest else after_commit rest
  end.

(** [_extract_commit_sha(commit_url)] *)
Definition _extract_commit_sha (commit_url : string) : string :=
  if negb (PyStr.nonempty commit_url) then ""
  else
    let parts := PyStr.split_on "/" (PyStr.rstrip_char "/" commit_url) in
    match after_commit parts with
    | Some sha => sha
    | None => default "" (last parts)
    end.

Record HistoryLink := mkLink {
  link_type : string;
  link_label : string;
  link_url : string;
}.

Record HistoryEvent := mkHistoryEvent {
  he_id : string;
  he_kind : string;
  he_bootstrap : bool;
  he_projectKey : string;
  he_envKey : string;
  he_envName : string;
  he_component : string;
  he_fromTag : string;
  he_toTag : string;
  he_fromBuild : string;
  he_toBuild : string;
  he_at : string;
  he_by : string;
  he_commitUrl : string;
  he_kustomizationUrl : string;
  he_links : list HistoryLink;
  he_warnings : option (list warning);
}.

(** [_mk_history_event(project_key, env, comp, from_tag, to_tag)];
    [now] is what [iso_now()] returns when the event is built. *)
Definition _mk_history_event (now : string) (project_key : string)
    (env : Environment) (comp : Component) (from_tag to_tag : string)
    : HistoryEvent :=
  let env_key := default "" (_normalize_env_key (env_key env)) in
  let env_name := PyStr.strip (PyStr.or_else (env_name env) (PyStr.upper env_key)) in
  let comp_name := PyStr.strip (comp_name comp) in
  let commit_url := PyStr.strip (comp_deployerCommitUrl comp) in
  let kustom_url := PyStr.strip (comp_kustomizationUrl comp) in
  let build_url := PyStr.strip (comp_buildUrl comp) in
  let at_ := PyStr.or_else (PyStr.strip (comp_deployedAt comp)) now in
  let by_ := PyStr.or_else (PyStr.strip (comp_deployer comp))
                           (PyStr.strip (env_deployer env)) in
  let sha := _extract_commit_sha commit_url in
  let ev_id :=
    if PyStr.nonempty sha
    then sha +:+ ":" +:+ project_key +:+ ":" +:+ env_key +:+ ":" +:+ comp_name
             +:+ ":" +:+ to_tag
    else project_key +:+ ":" +:+ env_key +:+ ":" +:+ comp_name +:+ ":" +:+ to_tag
             +:+ ":" +:+ at_ in
  let links :=
    (if PyStr.nonempty commit_url then [mkLink "commit" "Commit" commit_url] else [])
    ++ (if PyStr.nonempty kustom_url
        then [mkLink "kustomization" "Kustomization" kustom_url] else [])
    ++ (if PyStr.nonempty build_url then [mkLink "teamcity" "TeamCity" build_url] else []) in
  let warnings :=
    if has_warnings comp
    then Some [[("code", "HISTORY_PARTIAL");
                ("message", "Historical entry may be partial due to missing metadata.")]]
    else None in
  {| he_id := ev_id;
     he_kind := "TAG_CHANGE";
     he_bootstrap := false;
     he_projectKey := project_key;
     he_envKey := env_key;
     he_envName := env_name;
     he_component := comp_name;
     he_fromTag := PyStr.strip from_tag;
     he_toTag := PyStr.strip to_tag;
     he_fromBuild := extract_build_number from_tag;
     he_toBuild := extract_build_number to_tag;
     he_at := at_;
     he_by := by_;
     he_commitUrl := commit_url;
     he_kustomizationUrl := kustom_url;
     he_links := links;
     he_warnings := warnings |}.

(** Keys and entries of [_component_map]. *)
Definition comp_key : Type := string * string * string.

Record comp_entry := mkEntry {
  ce_project : Project;
  ce_env : Environment;
  ce_comp : Component;
}.

(** The three nested loops of [_component_map], flattened in order. *)
Definition snapshot_entries (snapshot : Snapshot) : list comp_entry :=
  flat_map (λ proj,
    flat_map (λ env,
      map (λ comp, mkEntry proj env comp) (env_components env))
      (proj_environments proj))
    snapshot.

Definition entry_key (e : comp_entry) : comp_key :=
  (PyStr.strip (proj_key (ce_project e)),
   PyStr.lower (PyStr.strip (env_key (ce_env e))),
   PyStr.strip (comp_name (ce_comp e))).

Definition key_complete (k : comp_key) : bool :=
  let '(pkey, ekey, cname) := k in
  PyStr.nonempty pkey && PyStr.nonempty ekey && PyStr.nonempty cname.

(** [_component_map(snapshot)] *)
Definition _component_map (snapshot : Snapshot) : list (comp_key * comp_entry) :=
  fold_left
    (λ out e, if key_complete (entry_key e) then kv_set (entry_key e) e out else out)
    (snapshot_entries snapshot) [].

(** Stable sort, greatest key first: [l.sort(key=..., reverse=True)]. *)
Fixpoint insert_desc {A} (key : A → string) (x : A) (l : list A) : list A :=
  match l with
  | [] => [x]
  | y :: t =>
      if PyStr.lt (key x) (key y) then y :: insert_desc key x t else x :: y :: t
  end.

Fixpoint sort_desc {A} (key : A → string) (l : list A) : list A :=
  match l with
  | [] => []
  | x :: t => insert_desc key x (sort_desc key t)
  end.

(** [prev_tag] of the loop: the stripped tag of the same key in the
    previous snapshot, [""] when the key is not there. *)
Definition prev_tag_of (prev_map : list (comp_key * comp_entry)) (key : comp_key) : string :=
  match kv_get key prev_map with
  | Some prev => PyStr.strip (comp_tag (ce_comp prev))
  | None => ""
  end.

(** [prev_tag and cur_tag and prev_tag != cur_tag] *)
Definition tag_changed (prev_tag cur_tag : string) : bool :=
  PyStr.nonempty prev_tag && PyStr.nonempty cur_tag && negb (String.eqb prev_tag cur_tag).

(** The loop over [cur_map.items()]: [i] numbers the items, [iso_now i] is
    the clock when item [i] is handled. *)
Fixpoint tag_change_loop (iso_now : nat → string) (i : nat)
    (prev_map : list (comp_key * comp_entry))
    (items : list (comp_key * comp_entry))
    (out : list (string * list HistoryEvent)) : list (string * list HistoryEvent) :=
  match items with
  | [] => out
  | (key, cur) :: rest =>
      let '(pkey, ekey, cname) := key in
      let cur_tag := PyStr.strip (comp_tag (ce_comp cur)) in
      let prev_tag := prev_tag_of prev_map key in
      let out' :=
        if tag_changed prev_tag cur_tag
        then kv_append pkey
               (_mk_history_event (iso_now i) pkey (ce_env cur) (ce_comp cur)
                  prev_tag cur_tag) out
        else out in
      tag_change_loop iso_now (S i) prev_map rest out'
  end.

(** [compute_tag_change_events(prev_snapshot, current_snapshot)]; a missing
    previous snapshot is the empty one. *)
Definition compute_tag_change_events (iso_now : nat → string)
    (prev_snapshot current_snapshot : Snapshot)
    : list (string * list HistoryEvent) :=
  let prev_map := _component_map prev_snapshot in
  let cur_map := _component_map current_snapshot in
  let out := tag_change_loop iso_now 0 prev_map cur_map [] in
  map (λ kv, (fst kv, sort_desc he_at (snd kv))) out.

(** The worked example of the specification: snapshot A has component [X]
    at tag [svc-v0.0.10]; snapshot B has it at [svc-v0.0.11], deployed by
    the infra commit [abc]. *)
Definition example_component_A : Component :=
  {| comp_name := "X"; comp_repo := "acme/x"; comp_tag := "svc-v0.0.10";
     comp_branch := ""; comp_deployedAt := "2026-01-18T09:00:00Z";
     comp_deployer := "alice";
     comp_deployerCommitUrl := "https://github.com/acme/infra/commit/9f1";
     comp_kustomizationUrl := ""; comp_buildUrl := ""; comp_warnings := None |}.

Definition example_component_B : Component :=
  {| comp_name := "X"; comp_repo := "acme/x"; comp_tag := "svc-v0.0.11";
     comp_branch := ""; comp_deployedAt := "2026-01-19T12:00:00Z";
     comp_deployer := "bob";
     comp_deployerCommitUrl := "https://github.com/acme/infra/commit/abc";
     comp_kustomizationUrl := ""; comp_buildUrl := ""; comp_warnings := None |}.

Definition example_env (c : Component) : Environment :=
  {| env_key := "qa"; env_name := "QA"; env_status := "healthy";
     env_deployer := ""; env_components := [c]; env_warnings := None |}.

Definition example_snapshot_A : Snapshot :=
  [{| proj_key := "P1"; proj_environments := [example_env example_component_A] |}].

Definition example_snapshot_B : Snapshot :=
  [{| proj_key := "P1"; proj_environments := [example_env example_component_B] |}].

(** ** Ticket environment presence: the persistence floor *)

(** One entry of [envPresenceMeta]: a dictionary of JSON values. *)
Definition meta_dict : Type := list (string * json).

(** [envPresence] and [envPresenceMeta] of a ticket: one boolean and one
    optional metadata dictionary per stage. *)
Record presence_state := mkPresence {
  envPresence : stage → bool;
  envPresenceMeta : stage → option meta_dict;
}.

(** [presence] and [presence_meta] as the loop initialises them. *)
Definition no_presence : presence_state :=
  {| envPresence := λ _, false; envPresenceMeta := λ _, None |}.

(** [d[s] = v] on a dictionary keyed by the four stages. *)
Definition stage_set {A} (f : stage → A) (s : stage) (v : A) : stage → A :=
  λ s', if decide (s' = s) then v else f s'.

(** [d.setdefault(k, v)] *)
Definition dict_setdefault {V} (k : string) (v : V) (d : list (string * V))
    : list (string * V) :=
  match dict_get k d with
  | Some _ => d
  | None => d ++ [(k, v)]
  end.

(** [carried = dict(pm)] followed by the three [setdefault] calls. *)
Definition carry_forward (pm : meta_dict) : meta_dict :=
  dict_setdefault "warning" (JStr "Deployment carried forward from previous snapshot.")
    (dict_setdefault "confidence" (JStr "persisted")
       (dict_setdefault "source" (JStr "persisted_prev_snapshot") pm)).

(** Truthiness of [presence_meta.get(stage)]: [None] and [{}] are falsy. *)
Definition meta_truthy (m : option meta_dict) : bool :=
  match m with Some (_ :: _) => true | _ => false end.

(** A ticket of the index: its [key] field and, once enriched, its
    presence. (The timeline the same function builds is not modelled.) *)
Record Ticket := mkTicket {
  t_key : string;
  t_presence : option presence_state;
}.

(** The body of [for stage in stage_order] in the persistence block. *)
Definition floor_stage (prev : presence_state) (st : presence_state) (s : stage)
    : presence_state :=
  if envPresence prev s && negb (envPresence st s) then
    {| envPresence := stage_set (envPresence st) s true;
       envPresenceMeta :=
         if negb (meta_truthy (envPresenceMeta st s)) then
           match envPresenceMeta prev s with
           | Some (entry :: more) =>
               stage_set (envPresenceMeta st) s (Some (carry_forward (entry :: more)))
           | _ => envPresenceMeta st
           end
         else envPresenceMeta st |}
  else st.

(** The persistence block for one ticket: [prev_snapshot] is the
    [ticketIndex] of the previous snapshot, [None] when there is no previous
    snapshot; [st] is what the current snapshot alone gave. *)
Definition persistence_floor (prev_snapshot : option (gmap string presence_state))
    (t : Ticket) (st : presence_state) : presence_state :=
  match prev_snapshot with
  | None => st
  | Some prev_ticket_index =>
      let ticket_key := PyStr.strip (t_key t) in
      if PyStr.nonempty ticket_key then
        match prev_ticket_index !! ticket_key with
        | Some prev => foldl (floor_stage prev) st stage_order
        | None => st
        end
      else st
  end.

Section EnvPresence.

(** What the first part of the loop body (PR timing, then the time-aware
    deployments) computes for a ticket from the current snapshot alone. *)
Variable current_presence : list Project → Ticket → presence_state.

(** [add_env_presence_to_ticket_index(ticket_index, projects_out,
    prev_snapshot)]: the index after the in-place update. *)
Definition add_env_presence_to_ticket_index (ticket_index : gmap string Ticket)
    (projects_out : list Project)
    (prev_snapshot : option (gmap string presence_state)) : gmap string Ticket :=
  if decide (ticket_index = ∅) then ticket_index
  else match projects_out with
       | [] => ticket_index
       | _ =>
           (λ t, {| t_key := t_key t;
                    t_presence :=
                      Some (persistence_floor prev_snapshot t
                              (current_presence projects_out t)) |})
             <$> ticket_index
       end.

End EnvPresence.

(** One ticket of [merge_deployment_presence]: current wins, history fills
    the gaps. *)
Definition merge_ticket_presence (current historical : presence_state)
    : presence_state :=
  {| envPresence := λ s, envPresence current s || envPresence historical s;
     envPresenceMeta := λ s,
       if envPresence current s then envPresenceMeta current s
       else if envPresence historical s then envPresenceMeta historical s
       else None |}.

(** [merge_deployment_presence(current_presence, historical_presence)]:
    a ticket missing on one side is read as [{}] there. *)
Definition merge_deployment_presence
    (current_presence historical_presence : gmap string presence_state)
    : gmap string presence_state :=
  merge (λ c h,
           match c, h with
           | None, None => None
           | _, _ => Some (merge_ticket_presence (default no_presence c)
                                                 (default no_presence h))
           end)
        current_presence historical_presence.

(** A previous snapshot in which ticket [T-1] is present in QA through a
    build-driven deployment, whose metadata names its own source. *)
Definition example_prev_meta : meta_dict :=
  [("when", JStr "2026-01-19T12:00:00Z"); ("repo", JStr "acme/x");
   ("tag", JStr "svc-v0.0.11"); ("confidence", JStr "high");
   ("source", JStr "time_aware_build")].

Definition example_prev_index : gmap string presence_state :=
  {[ "T-1" := {| envPresence := λ s, bool_decide (s = QA);
                 envPresenceMeta := λ s, if decide (s = QA)
                                         then Some example_prev_meta else None |} ]}.

Definition example_ticket_index : gmap string Ticket :=
  {[ "T-1" := {| t_key := "T-1"; t_presence := None |} ]}.

(** The current snapshot sees no deployment at all. *)
Definition example_current_nothing (projects : list Project) (t : Ticket)
    : presence_state := no_presence.

(** ** Calendar arithmetic and ISO-8601 rendering

    A UTC instant is a number of microseconds since 1970-01-01T00:00:00Z.
    The conversions between day numbers and civil dates are the usual
    era-based ones of the proleptic Gregorian calendar, which is the
    calendar of Python's [datetime]. *)

Definition US_PER_SECOND : Z := 1000000.
Definition US_PER_DAY : Z := 86400 * US_PER_SECOND.

(** Day number (days since 1970-01-01) of the civil date [y-m-d]. *)
Definition days_from_civil (y m d : Z) : Z :=
  let y' := if m <=? 2 then y - 1 else y in
  let era := y' / 400 in
  let yoe := y' - era * 400 in
  let doy := (153 * (if 2 <? m then m - 3 else m + 9) + 2) / 5 + d - 1 in
  let doe := yoe * 365 + yoe / 4 - yoe / 100 + doy in
  era * 146097 + doe - 719468.

(** Civil date of a day number. *)
Definition civil_from_days (z : Z) : Z * Z * Z :=
  let z' := z + 719468 in
  let era := z' / 146097 in
  let doe := z' - era * 146097 in
  let yoe := (doe - doe / 1460 + doe / 36524 - doe / 146096) / 365 in
  let doy := doe - (365 * yoe + yoe / 4 - yoe / 100) in
  let mp := (5 * doy + 2) / 153 in
  let d := doy - (153 * mp + 2) / 5 + 1 in
  let m := if mp <? 10 then mp + 3 else mp - 9 in
  let y := yoe + era * 400 + (if m <=? 2 then 1 else 0) in
  (y, m, d).

Definition is_leap (y : Z) : bool :=
  ((y mod 4 =? 0) && negb (y mod 100 =? 0)) || (y mod 400 =? 0).

Definition days_in_month (y m : Z) : Z :=
  if m =? 2 then (if is_leap y then 29 else 28)
  else if (m =? 4) || (m =? 6) || (m =? 9) || (m =? 11) then 30
  else 31.

(** The decimal digit [n mod 10] as a character. *)
Definition digit_char (n : Z) : ascii :=
  ascii_of_N (48 + Z.to_N (n mod 10)).

(** [n] zero-padded to a fixed width, as ["%02d"], ["%04d"] and ["%06d"]
    print a field that fits the width (every field of a [datetime] does). *)
Definition pad2 (n : Z) : string :=
  String (digit_char (n / 10)) (String (digit_char n) EmptyString).

Definition pad4 (n : Z) : string := pad2 (n / 100) +:+ pad2 n.

Definition pad6 (n : Z) : string := pad2 (n / 10000) +:+ pad4 n.

(** The fields of the UTC datetime at instant [us]. *)
Record utc_fields := mkUtcFields {
  f_year : Z; f_month : Z; f_day : Z;
  f_hour : Z; f_minute : Z; f_second : Z; f_microsecond : Z;
}.

Definition utc_fields_of (us : Z) : utc_fields :=
  let day := us / US_PER_DAY in
  let rest := us mod US_PER_DAY in
  let '(y, m, d) := civil_from_days day in
  let secs := rest / US_PER_SECOND in
  {| f_year := y; f_month := m; f_day := d;
     f_hour := secs / 3600; f_minute := (secs / 60) mod 60; f_second := secs mod 60;
     f_microsecond := rest mod US_PER_SECOND |}.

(** [datetime] supports the years 1 to 9999; arithmetic that leaves them
    raises [OverflowError]. *)
Definition year_in_range (us : Z) : bool :=
  let y := f_year (utc_fields_of us) in (1 <=? y) && (y <=? 9999).

(** [dt.isoformat()] of the UTC datetime at [us]:
    [YYYY-MM-DDTHH:MM:SS+00:00], with [.ffffff] after the seconds when the
    microsecond is not zero. *)
Definition isoformat_utc (us : Z) : string :=
  let f := utc_fields_of us in
  pad4 (f_year f) +:+ "-" +:+ pad2 (f_month f) +:+ "-" +:+ pad2 (f_day f)
  +:+ "T" +:+ pad2 (f_hour f) +:+ ":" +:+ pad2 (f_minute f) +:+ ":" +:+ pad2 (f_second f)
  +:+ (if f_microsecond f =? 0 then "" else "." +:+ pad6 (f_microsecond f))
  +:+ "+00:00".

(** [dt.isoformat().replace("+00:00", "Z")] *)
Definition isoformat_z (us : Z) : string :=
  py_replace "+00:00" "Z" (isoformat_utc us).

(** [dt.strftime("%Y-%m")] *)
Definition strftime_year_month (us : Z) : string :=
  let f := utc_fields_of us in pad4 (f_year f) +:+ "-" +:+ pad2 (f_month f).

(** The shape [YYYY-MM-DDTHH:MM:SS] optionally followed by [.ffffff], then
    [Z]: the normalised UTC form of a timestamp. *)
Definition all_digits (s : string) : bool :=
  forallb PyStr.is_digit (list_ascii_of_string s).

Definition is_iso_utc_z (s : string) : bool :=
  let date_ok :=
    all_digits (substring 0 4 s) && String.eqb (substring 4 1 s) "-"
    && all_digits (substring 5 2 s) && String.eqb (substring 7 1 s) "-"
    && all_digits (substring 8 2 s) && String.eqb (substring 10 1 s) "T"
    && all_digits (substring 11 2 s) && String.eqb (substring 13 1 s) ":"
    && all_digits (substring 14 2 s) && String.eqb (substring 16 1 s) ":"
    && all_digits (substring 17 2 s) in
  date_ok &&
  ((Nat.eqb (String.length s) 20 && String.eqb (substring 19 1 s) "Z")
   || (Nat.eqb (String.length s) 27 && String.eqb (substring 19 1 s) "."
       && all_digits (substring 20 6 s) && String.eqb (substring 26 1 s) "Z")).

(** ** CI adapter: build details and timestamp normalisation *)

(** A [datetime] with an offset, as [strptime] with [%z] returns it: the
    wall-clock reading and the offset from UTC, both in microseconds. *)
Record aware_datetime := mkAware {
  ad_local_us : Z;
  ad_offset_us : Z;
}.

(** The decimal value of a string of digits. *)
Definition digits_value (s : string) : Z :=
  fold_left (λ acc c, 10 * acc + (Z.of_N (N_of_ascii c) - 48))
            (list_ascii_of_string s) 0.

(** [datetime.strptime(s, "%Y%m%dT%H%M%S%z")] on the fixed-width vendor
    form [YYYYMMDDThhmmss±hhmm]: [None] stands for [ValueError]. Python's
    [strptime] also accepts some looser spellings (one-digit fields, [Z] or
    [±hh:mm] offsets); on every string of the fixed-width form it behaves as
    below. *)
Definition strptime_vendor (s : string) : option aware_datetime :=
  let sign := substring 15 1 s in
  if Nat.eqb (String.length s) 20
     && all_digits (substring 0 8 s) && String.eqb (substring 8 1 s) "T"
     && all_digits (substring 9 6 s)
     && (String.eqb sign "+" || String.eqb sign "-")
     && all_digits (substring 16 4 s)
  then
    let y := digits_value (substring 0 4 s) in
    let m := digits_value (substring 4 2 s) in
    let d := digits_value (substring 6 2 s) in
    let hh := digits_value (substring 9 2 s) in
    let mi := digits_value (substring 11 2 s) in
    let ss := digits_value (substring 13 2 s) in
    let oh := digits_value (substring 16 2 s) in
    let om := digits_value (substring 18 2 s) in
    if (1 <=? y) && (1 <=? m) && (m <=? 12) && (1 <=? d) && (d <=? days_in_month y m)
       && (hh <=? 23) && (mi <=? 59) && (ss <=? 59) && (oh <=? 23) && (om <=? 59)
    then
      let offset := (oh * 3600 + om * 60) * US_PER_SECOND in
      Some {| ad_local_us :=
                days_from_civil y m d * US_PER_DAY
                + (hh * 3600 + mi * 60 + ss) * US_PER_SECOND;
              ad_offset_us := if String.eqb sign "-" then - offset else offset |}
    else None
  else None.

(** What a request of the adapter ends in. *)
Inductive outcome (A : Type) :=
| Returned (a : A)
| Raised.
Arguments Returned {A} a.
Arguments Raised {A}.

(** The reply to the build-details request: an exception of the transport,
    or a status code and the decoded body ([None] when it is not JSON). *)
Inductive http_reply :=
| HttpRaises
| HttpReply (status_code : Z) (body : option (list (string * json))).

Section TeamCity.

(** [datetime.strptime(s, "%Y%m%dT%H%M%S%z")]; [None] when it raises. *)
Variable strptime : string → option aware_datetime.

(** [parse_iso_teamcity(s)]: [astimezone] raises when the UTC reading
    leaves the supported years, and every exception gives [""]. *)
Definition parse_iso_teamcity (s : string) : string :=
  if negb (PyStr.nonempty s) then ""
  else match strptime s with
       | None => ""
       | Some dt =>
           let utc := ad_local_us dt - ad_offset_us dt in
           if year_in_range utc then isoformat_z utc else ""
       end.

(** [teamcity_get_build_details(rest_base, token, build_id)]: [build_id]
    is [None] or an integer; [reply] is what the request ends in. *)
Definition teamcity_get_build_details (rest_base token : string)
    (build_id : option Z) (reply : http_reply)
    : outcome (option (list (string * json))) :=
  let build_id_truthy :=
    match build_id with Some n => negb (n =? 0) | None => false end in
  if negb (PyStr.nonempty rest_base && PyStr.nonempty token && build_id_truthy)
  then Returned None
  else match reply with
       | HttpRaises => Raised
       | HttpReply code body =>
           if (code =? 401) || (code =? 403) then Returned None
           else if (400 <=? code) && (code <? 600) then Raised
           else match body with
                | None => Raised
                | Some fields => Returned (Some fields)
                end
       end.

(** [d.get(k) or ""] for a field that holds a string. *)
Definition str_field (k : string) (d : list (string * json)) : string :=
  match dict_get k d with
  | Some (JStr s) => s
  | _ => ""
  end.

(** [c["buildFinishedAt"]] as the component assembler fills it from the
    build details. *)
Definition build_finished_at (tc_build : list (string * json)) : string :=
  parse_iso_teamcity
    (PyStr.or_else (str_field "finishDate" tc_build)
                   (str_field "finishOnAgentDate" tc_build)).

End TeamCity.

(** Build details as the CI server sends them. *)
Definition example_build_details : list (string * json) :=
  [("id", JNum 4211); ("number", JStr "112"); ("status", JStr "SUCCESS");
   ("state", JStr "finished"); ("branchName", JStr "release/1.4");
   ("startDate", JStr "20251204T140102+0000");
   ("finishDate", JStr "20251204T141343+0000")].

(** A timestamp in the vendor form [YYYYMMDDThhmmss±hhmm], written from its
    fields. *)
Definition render_vendor (y m d hh mi ss : Z) (negative : bool) (oh om : Z) : string :=
  pad4 y +:+ pad2 m +:+ pad2 d +:+ "T" +:+ pad2 hh +:+ pad2 mi +:+ pad2 ss
  +:+ (if negative then "-" else "+") +:+ pad2 oh +:+ pad2 om.

(** The fields are those of a real date, time of day and offset. *)
Definition vendor_fields_valid (y m d hh mi ss oh om : Z) : Prop :=
  1 ≤ y ≤ 9999 ∧ 1 ≤ m ≤ 12 ∧ 1 ≤ d ≤ days_in_month y m ∧
  0 ≤ hh ≤ 23 ∧ 0 ≤ mi ≤ 59 ∧ 0 ≤ ss ≤ 59 ∧ 0 ≤ oh ≤ 23 ∧ 0 ≤ om ≤ 59.

(** The UTC instant the fields denote. *)
Definition vendor_instant (y m d hh mi ss : Z) (negative : bool) (oh om : Z) : Z :=
  days_from_civil y m d * US_PER_DAY + (hh * 3600 + mi * 60 + ss) * US_PER_SECOND
  - (if negative then - ((oh * 3600 + om * 60) * US_PER_SECOND)
     else (oh * 3600 + om * 60) * US_PER_SECOND).

(** ** Release history: retention *)

(** [RELEASE_HISTORY_RETENTION_DAYS] when the environment does not set it. *)
Definition RELEASE_HISTORY_RETENTION_DAYS : Z := 90.

(** [index["retention"]]: [days] ([None]: key absent) and [lastCleanup]
    ([None]: absent or null). *)
Record retention_info := mkRetention {
  ret_days : option Z;
  ret_lastCleanup : option string;
}.

(** The parts of [index.json] the retention policy reads and writes;
    [None] for a section the file does not have. *)
Record history_index := mkIndex {
  idx_retention : option retention_info;
  idx_totalEvents : option Z;
}.

(** The release-history directory: the index, the active log (absent, or
    its lines, [None] for a blank or undecodable line) and the archive
    files by name. *)
Record history_store := mkStore {
  hs_index : history_index;
  hs_events : option (list (option json));
  hs_archive : gmap string (list json);
}.

(** The three readings of the clock in one call: the two
    [datetime.now(timezone.utc)] in microseconds, and [iso_now()]. *)
Record retention_clock := mkClock {
  now_check : Z;
  now_cutoff : Z;
  now_stamp : string;
}.

(** What the scan does with one line of the log. *)
Inductive line_class :=
| ToArchive (ev : json)
| ToKeep (ev : json)
| Dropped.

(** The body of [for line in f]: a line that is not an object, or whose
    [at] is a truthy value that is not a string, raises inside the [try]
    and is skipped. *)
Definition classify_line (cutoff_iso : string) (line : option json) : line_class :=
  match line with
  | None => Dropped
  | Some (JObj fields) =>
      match dict_get "at" fields with
      | Some (JStr event_at) =>
          if PyStr.nonempty event_at && PyStr.lt event_at cutoff_iso
          then ToArchive (JObj fields) else ToKeep (JObj fields)
      | Some v => if truthy v then Dropped else ToKeep (JObj fields)
      | None => ToKeep (JObj fields)
      end
  | Some _ => Dropped
  end.

Definition events_to_archive (cutoff_iso : string) (lines : list (option json))
    : list json :=
  flat_map (λ l, match classify_line cutoff_iso l with ToArchive ev => [ev] | _ => [] end)
           lines.

Definition events_to_keep (cutoff_iso : string) (lines : list (option json))
    : list json :=
  flat_map (λ l, match classify_line cutoff_iso l with ToKeep ev => [ev] | _ => [] end)
           lines.

Definition archive_file_name (cutoff : Z) : string :=
  "events-" +:+ strftime_year_month cutoff +:+ ".jsonl".

Section Retention.

(** [datetime.fromisoformat]; [None] when it raises. *)
Variable fromisoformat : string → option datetime.

(** The guard "at most once per day": [lastCleanup] is set, parses to an
    aware datetime, and [(now - last).days < 1]. A value that does not
    parse, or parses without an offset, raises inside the [try] and the
    cleanup goes on. *)
Definition cleanup_skipped (clock : retention_clock) (index : history_index) : bool :=
  match idx_retention index with
  | Some {| ret_lastCleanup := Some last_cleanup |} =>
      if PyStr.nonempty last_cleanup then
        match fromisoformat (py_replace "Z" "+00:00" last_cleanup) with
        | Some last_dt =>
            dt_aware last_dt && ((now_check clock - dt_us last_dt) / US_PER_DAY <? 1)
        | None => false
        end
      else false
  | _ => false
  end.

(** [index.get("retention", {}).get("days", RELEASE_HISTORY_RETENTION_DAYS)] *)
Definition retention_days_of (index : history_index) : Z :=
  match idx_retention index with
  | Some {| ret_days := Some d |} => d
  | _ => RELEASE_HISTORY_RETENTION_DAYS
  end.

Definition cutoff_of (clock : retention_clock) (index : history_index) : Z :=
  now_cutoff clock - retention_days_of index * US_PER_DAY.

(** The index after the update: assigning into a missing [retention] or
    [stats] section raises [KeyError] inside the [try], and the index is
    then not saved. *)
Definition index_after_cleanup (clock : retention_clock) (index : history_index)
    (kept : nat) : history_index :=
  match idx_retention index, idx_totalEvents index with
  | Some r, Some _ =>
      {| idx_retention := Some {| ret_days := ret_days r;
                                  ret_lastCleanup := Some (now_stamp clock) |};
         idx_totalEvents := Some (Z.of_nat kept) |}
  | _, _ => index
  end.

(** [_apply_retention_policy()]: the store after the call, or [Raised]
    when the cutoff leaves the years a [datetime] supports. *)
Definition _apply_retention_policy (clock : retention_clock) (st : history_store)
    : outcome history_store :=
  if cleanup_skipped clock (hs_index st) then Returned st
  else
    let cutoff := cutoff_of clock (hs_index st) in
    if negb (year_in_range cutoff) then Raised
    else
      let cutoff_iso := isoformat_z cutoff in
      match hs_events st with
      | None => Returned st
      | Some lines =>
          let old := events_to_archive cutoff_iso lines in
          let keep := events_to_keep cutoff_iso lines in
          match old with
          | [] => Returned st
          | _ =>
              let file := archive_file_name cutoff in
              Returned
                {| hs_index := index_after_cleanup clock (hs_index st) (length keep);
                   hs_events := Some (map Some keep);
                   hs_archive :=
                     <[file := default [] (hs_archive st !! file) ++ old]>
                       (hs_archive st) |}
          end
      end.

End Retention.

(** An event is older than the cutoff, as the scan decides it: its [at]
    is a non-empty string that sorts before the cutoff's ISO form. *)
Definition older_than (cutoff_iso : string) (ev : json) : Prop :=
  ∃ fields event_at,
    ev = JObj fields ∧ dict_get "at" fields = Some (JStr event_at) ∧
    event_at ≠ "" ∧ PyStr.lt event_at cutoff_iso = true.

(** A store whose log holds one recent event, with a stale counter and no
    cleanup so far; the clock reads 2026-11-03T00:00:00Z. *)
Definition example_recent_event : json :=
  JObj [("id", JStr "abc:P1:qa:X:svc-v0.0.11"); ("at", JStr "2026-10-30T12:00:00Z")].

Definition example_old_event : json :=
  JObj [("id", JStr "9f1:P1:qa:X:svc-v0.0.10"); ("at", JStr "2026-01-19T12:00:00Z")].

Definition example_store (lines : list (option json)) : history_store :=
  {| hs_index := {| idx_retention := Some {| ret_days := Some 90;
                                             ret_lastCleanup := None |};
                    idx_totalEvents := Some 7 |};
     hs_events := Some lines;
     hs_archive := ∅ |}.

Definition example_clock : retention_clock :=
  {| now_check := days_from_civil 2026 11 3 * US_PER_DAY;
     now_cutoff := days_from_civil 2026 11 3 * US_PER_DAY;
     now_stamp := "2026-11-03T00:00:00+00:00" |}.

(** A [fromisoformat] that knows the timestamps of the examples:
    2026-11-02T12:00:00+00:00 and 2026-01-19T12:00:00+00:00. *)
Definition example_fromisoformat (s : string) : option datetime :=
  if String.eqb s "2026-11-02T12:00:00+00:00"
  then Some {| dt_us := days_from_civil 2026 11 2 * US_PER_DAY + 12 * 3600 * US_PER_SECOND;
               dt_aware := true |}
  else if String.eqb s "2026-01-19T12:00:00+00:00"
  then Some {| dt_us := days_from_civil 2026 1 19 * US_PER_DAY + 12 * 3600 * US_PER_SECOND;
               dt_aware := true |}
  else if String.eqb s "2026-01-20T09:30:00+00:00"
  then Some {| dt_us := days_from_civil 2026 1 20 * US_PER_DAY + (9 * 3600 + 1800) * US_PER_SECOND;
               dt_aware := true |}
  else None.

(** The example store after a cleanup twelve hours before the clock. *)
Definition example_store_cleaned (lines : list (option json)) : history_store :=
  {| hs_index := {| idx_retention :=
                      Some {| ret_days := Some 90;
                              ret_lastCleanup := Some "2026-11-02T12:00:00Z" |};
                    idx_totalEvents := Some 7 |};
     hs_events := Some lines;
     hs_archive := ∅ |}.

(** * Theorems *)

(** ** Facts about the string primitives *)

Module PyStrFacts.
Import PyStr.


Lemma startswith_spec s p :
  startswith s p = true ↔ ∃ t, s = p +:+ t.
Proof.
  revert s. induction p as [|a p IH]; intros s; simpl.
  - split; [intros _; by exists s | done].
  - destruct s as [|b s].
    + split; [done | intros [t Ht]; discriminate Ht].
    + rewrite andb_true_iff, Ascii.eqb_eq, IH. split.
      * intros [-> [t ->]]. by exists t.
      * intros [t Ht]. injection Ht as -> ->. eauto.
Qed.

Lemma contains_spec sub s :
  contains sub s = true ↔ ∃ pre post, s = pre +:+ sub +:+ post.
Proof.
  induction s as [|c s IH]; simpl.
  - rewrite orb_false_r, startswith_spec. split.
    + intros [t Ht]. by exists "", t.
    + intros [pre [post H]]. destruct pre; [by exists post | discriminate H].
  - rewrite orb_true_iff, startswith_spec, IH. split.
    + intros [[t Ht] | [pre [post ->]]].
      * by exists "", t.
      * by exists (String c pre), post.
    + intros [[|a pre] [post H]].
      * left. by exists post.
      * right. injection H as -> ->. by exists pre, post.
Qed.

Lemma nonempty_true s : nonempty s = true ↔ s ≠ "".
Proof. destruct s; simpl; split; congruence. Qed.

Lemma nonempty_false s : nonempty s = false ↔ s = "".
Proof. destruct s; simpl; split; congruence. Qed.


End PyStrFacts.

(** ** Stage derivation *)

Section StageDerivation.
Import PyStr PyStrFacts.

Lemma contains_false sub s : contains sub s = false ↔ ¬ is_substring sub s.
Proof.
  unfold is_substring. rewrite <- contains_spec.
  destruct (contains sub s); split; intros; congruence.
Qed.

Lemma contains_empty sub : sub ≠ "" → contains sub "" = false.
Proof. destruct sub; [done | reflexivity]. Qed.

Lemma env_to_stage_unfold name :
  _env_to_stage name =
  let n := env_name_norm name in
  if contains "prod" n then PROD
  else if contains "uat" n then UAT
  else if contains "qa" n || String.eqb n "green" then QA
  else DEV.
Proof.
  unfold _env_to_stage, env_name_norm. cbv zeta.
  destruct (lower (strip (default "" name))) as [|c n] eqn:E; [reflexivity|].
  cbn [nonempty negb].
  destruct (contains "prod" _); [done|].
  destruct (contains "uat" _); [done|].
  destruct (String.eqb (String c n) "qa") eqn:Hqa; [|done].
  apply String.eqb_eq in Hqa. by rewrite Hqa.
Qed.

(** C5, the four worked names of the specification. *)
Lemma env_to_stage_examples :
  _env_to_stage (Some "PRODUCTION") = PROD ∧
  _env_to_stage (Some "green") = QA ∧
  _env_to_stage (Some "integration-uat") = UAT ∧
  _env_to_stage (Some "") = DEV ∧
  _env_to_stage None = DEV.
Proof. repeat split; reflexivity. Qed.

(** C5 as stated fails: the name [green-lane] contains [green], so the
    substring rule of the specification gives QA, while the code, which
    compares the whole name with [green], gives DEV. *)
Lemma env_to_stage_green_is_exact :
  is_substring "green" (env_name_norm (Some "green-lane")) ∧
  stage_by_substring (Some "green-lane") = QA ∧
  _env_to_stage (Some "green-lane") = DEV ∧
  _env_to_stage (Some "green-lane") ≠ stage_by_substring (Some "green-lane").
Proof.
  split; [by exists "", "-lane" |].
  repeat split; try reflexivity. discriminate.
Qed.

(** C5 amended: the stage of an environment name is decided on its
    stripped, lower-cased form [n], in this order: [prod] occurs in [n]
    gives PROD; else [uat] occurs in [n] gives UAT; else [qa] occurs in [n]
    or [n] is exactly [green] gives QA; else DEV. The worked names
    PRODUCTION, green, integration-uat and the empty name come out as PROD,
    QA, UAT and DEV. *)
Theorem env_to_stage_rule (env_name : option string) :
  let n := env_name_norm env_name in
  let st := _env_to_stage env_name in
  ((is_substring "prod" n ∧ st = PROD) ∨
   (¬ is_substring "prod" n ∧ is_substring "uat" n ∧ st = UAT) ∨
   (¬ is_substring "prod" n ∧ ¬ is_substring "uat" n ∧
      (is_substring "qa" n ∨ n = "green") ∧ st = QA) ∨
   (¬ is_substring "prod" n ∧ ¬ is_substring "uat" n ∧
      ¬ is_substring "qa" n ∧ n ≠ "green" ∧ st = DEV)) ∧
  _env_to_stage (Some "PRODUCTION") = PROD ∧
  _env_to_stage (Some "green") = QA ∧
  _env_to_stage (Some "integration-uat") = UAT ∧
  _env_to_stage (Some "") = DEV.
Proof.
  cbv zeta. split; [| repeat split; reflexivity].
  rewrite env_to_stage_unfold. cbv zeta.
  set (n := env_name_norm env_name).
  destruct (contains "prod" n) eqn:Hp.
  { left. split; [by apply contains_spec | done]. }
  apply contains_false in Hp. right.
  destruct (contains "uat" n) eqn:Hu.
  { left. repeat split; [done | by apply contains_spec]. }
  apply contains_false in Hu. right.
  destruct (contains "qa" n) eqn:Hq; simpl.
  { left. repeat split; try done. left. by apply contains_spec. }
  apply contains_false in Hq.
  destruct (String.eqb n "green") eqn:Hg.
  - left. apply String.eqb_eq in Hg. repeat split; try done. by right.
  - right. apply String.eqb_neq in Hg. done.
Qed.

End StageDerivation.

(** ** Environment status *)

Section EnvironmentStatus.

Lemma has_warnings_true c :
  has_warnings c = true ↔ ∃ w ws, comp_warnings c = Some (w :: ws).
Proof.
  unfold has_warnings. destruct (comp_warnings c) as [[|w ws]|]; split;
    try discriminate; eauto; intros (? & ? & ?); congruence.
Qed.

Lemma has_warnings_false c :
  has_warnings c = false ↔ comp_warnings c = None ∨ comp_warnings c = Some [].
Proof.
  unfold has_warnings. destruct (comp_warnings c) as [[|w ws]|]; split;
    try discriminate; eauto; intros [?|?]; congruence.
Qed.

Lemma has_comp_warnings_true cs :
  has_comp_warnings cs = true ↔ ∃ c, In c cs ∧ has_warnings c = true.
Proof. unfold has_comp_warnings. apply existsb_exists. Qed.

Lemma assemble_env_status_cases key name dep cs dd obs :
  env_status (assemble_env key name dep cs dd obs) =
    if bool_decide (collect_env_warnings cs dd obs = []) then "healthy" else "warn".
Proof.
  unfold assemble_env; simpl.
  destruct (collect_env_warnings cs dd obs) eqn:E;
    [by rewrite bool_decide_true | by rewrite bool_decide_false].
Qed.

Lemma collect_env_warnings_nil cs dd obs :
  collect_env_warnings cs dd obs = [] ↔
  has_comp_warnings cs = false ∧ datadog_env_warnings dd = [] ∧ obs = [].
Proof.
  unfold collect_env_warnings. split.
  - intros H. apply app_eq_nil in H as [H1 H2]. apply app_eq_nil in H2 as [H2 H3].
    destruct (has_comp_warnings cs); [discriminate H1 | done].
  - intros (-> & -> & ->). done.
Qed.

(** C6: the status of an assembled environment is [warn] exactly when one
    of its components carries a non-empty warnings list or another
    environment-level warning (monitoring, observability) was produced, and
    [healthy] otherwise; hence every component of the environment has no
    warnings, or the environment's status is [warn]. *)
Theorem env_status_invariant (key name dep : string) (cs : list Component)
    (dd : option dd_health) (obs : list warning) :
  let e := assemble_env key name dep cs dd obs in
  (env_status e = "warn" ↔
     (∃ c, In c cs ∧ has_warnings c = true) ∨
     datadog_env_warnings dd ≠ [] ∨ obs ≠ []) ∧
  (env_status e = "healthy" ↔
     (∀ c, In c cs → has_warnings c = false) ∧
     datadog_env_warnings dd = [] ∧ obs = []) ∧
  (∀ c, In c (env_components e) →
     (comp_warnings c = None ∨ comp_warnings c = Some []) ∨ env_status e = "warn").
Proof.
  cbv zeta. rewrite assemble_env_status_cases.
  assert (Hall : has_comp_warnings cs = false ↔ ∀ c, In c cs → has_warnings c = false).
  { unfold has_comp_warnings. rewrite <- not_true_iff_false, existsb_exists. split.
    - intros H c Hc. apply not_true_iff_false. intros Hw. apply H. eauto.
    - intros H (c & Hc & Hw). rewrite (H c Hc) in Hw. discriminate. }
  case_bool_decide as Hnil.
  - apply collect_env_warnings_nil in Hnil as (Hc & Hd & Ho).
    split; [|split].
    + split; [discriminate|].
      intros [(c & Hin & Hw) | [? | ?]]; try done.
      apply Hall with (c := c) in Hc; [congruence | done].
    + split; [|done]. intros _. by rewrite <- Hall.
    + intros c Hin. left. apply has_warnings_false. by apply Hall.
  - split; [|split].
    + split; [|done]. intros _.
      destruct (has_comp_warnings cs) eqn:Hc.
      { left. by apply has_comp_warnings_true. }
      right. destruct (datadog_env_warnings dd) eqn:Hd; [|by left].
      right. intros ->. apply Hnil. apply collect_env_warnings_nil. done.
    + split; [discriminate|]. intros (Hc & Hd & Ho). exfalso. apply Hnil.
      apply collect_env_warnings_nil. by rewrite Hall.
    + intros c _. by right.
Qed.

End EnvironmentStatus.

(** ** The append-only event log *)

Section AppendLog.

(** Every line of both files carries an id. *)
Definition lines_ok (lines : option (list event)) : Prop :=
  ∀ l, lines = Some l → Forall (λ ev, has_id ev = true) l.

Definition files_ok (fs : jsonl_files) : Prop :=
  lines_ok (log_file fs) ∧ lines_ok (tmp_file fs).

Lemma lines_ok_None : lines_ok None.
Proof. intros l Hl. discriminate Hl. Qed.

Lemma lines_ok_Some l : lines_ok (Some l) ↔ Forall (λ ev, has_id ev = true) l.
Proof.
  split; [intros H; by apply H | intros H l' [= <-]; exact H].
Qed.

Lemma lines_for_ok events : Forall (λ ev, has_id ev = true) (lines_for events).
Proof.
  unfold lines_for. induction events as [|ev evs IH]; [constructor|].
  rewrite filter_cons. case_decide; [constructor|]; done.
Qed.

Lemma lines_ok_default lines :
  lines_ok lines → Forall (λ ev, has_id ev = true) (default [] lines).
Proof. destruct lines as [l|]; simpl; [by rewrite lines_ok_Some | constructor]. Qed.

Lemma lines_ok_append lines events :
  lines_ok lines → lines_ok (Some (default [] lines ++ lines_for events)).
Proof.
  intros H. apply lines_ok_Some, Forall_app. split.
  - by apply lines_ok_default.
  - apply lines_for_ok.
Qed.

Lemma lines_ok_take k l : lines_ok (Some l) → lines_ok (Some (take k l)).
Proof. rewrite !lines_ok_Some. apply Forall_take. Qed.

Create HintDb jsonl.
#[local] Hint Resolve lines_ok_None lines_ok_append lines_ok_take : jsonl.

Lemma append_attempt_ok fs events fault :
  files_ok fs → files_ok (fst (append_attempt fs events fault)).
Proof.
  intros [Hlog Htmp]. unfold append_attempt.
  destruct fs as [[l|] t]; simpl in *.
  - destruct fault as [|[k|]|n| |]; simpl; split; simpl; auto with jsonl.
    all: try (change l with (default [] (Some l)) at 1; auto with jsonl).
    all: try (change (Some (l ++ ?x)) with (Some (default [] (Some l) ++ x)); auto with jsonl).
  - destruct fault as [|[k|]|n| |]; simpl; split; simpl; auto with jsonl.
Qed.

Lemma append_loop_ok remaining attempt faults cleanup_ok events fs :
  files_ok fs →
  files_ok (fst (append_loop remaining attempt faults cleanup_ok events fs)).
Proof.
  revert attempt fs. induction remaining as [|r IH]; intros attempt fs Hfs; [exact Hfs|].
  simpl. pose proof (append_attempt_ok fs events (faults attempt) Hfs) as Hstep.
  destruct (append_attempt fs events (faults attempt)) as [fs' ok]; simpl in Hstep.
  destruct ok; [exact Hstep|].
  destruct r as [|r'].
  - destruct cleanup_ok; [|exact Hstep].
    destruct Hstep as [H1 _]. split; [exact H1 | apply lines_ok_None].
  - by apply IH.
Qed.

Lemma append_events_to_jsonl_ok ebp faults cleanup_ok fs :
  files_ok fs → files_ok (fst (_append_events_to_jsonl ebp faults cleanup_ok fs)).
Proof.
  intros Hfs. unfold _append_events_to_jsonl.
  destruct (flat_map _ ebp); [exact Hfs|]. by apply append_loop_ok.
Qed.

Lemma append_reachable_ok fs : append_reachable fs → files_ok fs.
Proof.
  induction 1 as [|fs ebp faults c _ IH|fs m evs faults c _ IH].
  - split; apply lines_ok_None.
  - by apply append_events_to_jsonl_ok.
  - by apply append_loop_ok.
Qed.

Lemma has_id_spec ev :
  has_id ev = true ↔
  ∃ v, dict_get "id" ev = Some v ∧ truthy v = true.
Proof.
  unfold has_id. destruct (dict_get "id" ev) as [v|]; split.
  - intros H. by exists v.
  - by intros (v' & [= <-] & H).
  - discriminate.
  - by intros (v' & [=] & _).
Qed.

Lemma truthy_nonempty v : truthy v = true → v ≠ JNull ∧ v ≠ JStr "".
Proof. intros H; split; intros ->; discriminate H. Qed.

(** What a fault-free append writes: the old lines, then the events that
    have an id, in order. *)
Lemma atomic_append_no_fault events fs retries :
  atomic_append_jsonl (S retries) (λ _, NoFault) true events fs =
  ({| log_file := Some (default [] (match log_file fs with
                                   | Some l => Some l
                                   | None => tmp_file fs
                                   end) ++ lines_for events);
      tmp_file := None |}, true).
Proof.
  unfold atomic_append_jsonl. cbn [append_loop]. unfold append_attempt.
  destruct fs as [[l|] t]; reflexivity.
Qed.

(** C10: both append routines skip an event whose [id] is missing or
    falsy (the lines written for a batch are exactly its events with an
    id), and so in every state reachable through the append path each line
    of the events log is an object whose [id] is present and non-empty. *)
Theorem appended_events_have_id (fs : jsonl_files) (lines : list event) :
  append_reachable fs →
  log_file fs = Some lines →
  (∀ events ev, In ev (lines_for events) ↔ In ev events ∧ has_id ev = true) ∧
  ∀ ev, In ev lines →
    ∃ v, dict_get "id" ev = Some v ∧ truthy v = true ∧ v ≠ JNull ∧ v ≠ JStr "".
Proof.
  intros Hreach Hlog. split.
  - intros events ev. unfold lines_for.
    rewrite <- !list_elem_of_In, list_elem_of_filter. tauto.
  - intros ev Hin.
    apply append_reachable_ok in Hreach as [Hl _].
    specialize (Hl lines Hlog). rewrite Forall_forall in Hl.
    apply list_elem_of_In, Hl in Hin. apply has_id_spec in Hin as (v & Hv & Ht).
    exists v. repeat split; try done; by apply truthy_nonempty.
Qed.

End AppendLog.

(** Witness for C10: three events are handed to the history append helper
    on a fresh log; only the one with an id is written. *)
Lemma appended_events_have_id_witness :
  let fs := fst (_append_events_to_jsonl
                   [("P1", [sample_event; sample_event_no_id; sample_event_empty_id])]
                   (λ _, NoFault) true no_files) in
  log_file fs = Some [sample_event] ∧
  ∀ ev, In ev [sample_event] →
    ∃ v, dict_get "id" ev = Some v ∧ truthy v = true ∧ v ≠ JNull ∧ v ≠ JStr "".
Proof.
  cbv zeta. split; [reflexivity|].
  refine (proj2 (appended_events_have_id
                   (fst (_append_events_to_jsonl
                      [("P1", [sample_event; sample_event_no_id; sample_event_empty_id])]
                      (λ _, NoFault) true no_files))
                   [sample_event] _ _)).
  - apply reach_history, reach_init.
  - reflexivity.
Defined.

(** ** Time-aware PR to branch correlation *)

Section TimeAwareFacts.

Variable fromisoformat : string → option datetime.
Variable github_compare : string → string → compare_reply.

#[local] Abbreviation parse := (_parse_iso_safe fromisoformat).
#[local] Abbreviation check := (github_check_commit_in_branch github_compare).
#[local] Abbreviation correlate :=
  (correlate_prs_with_branches_time_aware fromisoformat github_compare).

Lemma for_each_Some {A B} (f : A → option (list B)) l out :
  for_each f l = Some out →
  ∀ e, In e out ↔ ∃ x r, In x l ∧ f x = Some r ∧ In e r.
Proof.
  revert out. induction l as [|x l IH]; intros out; simpl.
  - intros [= <-] e. split; [done | by intros (? & ? & [] & _)].
  - destruct (f x) as [r|] eqn:Hx; [|discriminate]. simpl.
    destruct (for_each f l) as [rs|]; [|discriminate]. simpl.
    intros [= <-] e. rewrite in_app_iff, (IH rs eq_refl). split.
    + intros [He | (y & r' & Hy & Hr & He)].
      * exists x, r. auto.
      * exists y, r'. auto.
    + intros (y & r' & [<- | Hy] & Hr & He).
      * left. congruence.
      * right. eauto.
Qed.

Lemma for_each_None {A B} (f : A → option (list B)) l :
  for_each f l = None ↔ ∃ x, In x l ∧ f x = None.
Proof.
  induction l as [|x l IH]; simpl.
  - split; [discriminate | by intros (? & [] & _)].
  - destruct (f x) as [r|] eqn:Hx; simpl.
    + destruct (for_each f l) as [rs|]; simpl.
      * split; [discriminate|]. intros (y & [<- | Hy] & Hn); [congruence|].
        destruct IH as [_ IH]. discriminate IH. eauto.
      * split; [|done]. intros _. destruct IH as [IH _].
        destruct (IH eq_refl) as (y & Hy & Hn). eauto.
    + split; [|done]. intros _. eauto.
Qed.

Lemma dt_lt_Some a b r :
  dt_lt a b = Some r ↔ dt_aware a = dt_aware b ∧ r = (dt_us a <? dt_us b).
Proof.
  unfold dt_lt. destruct (Bool.eqb _ _) eqn:E.
  - apply Bool.eqb_prop in E. split; [intros [= <-]; done | intros [_ ->]; done].
  - apply Bool.eqb_false_iff in E. split; [discriminate | intros [? _]; done].
Qed.

Lemma dt_lt_None a b : dt_lt a b = None ↔ dt_aware a ≠ dt_aware b.
Proof.
  unfold dt_lt. destruct (Bool.eqb _ _) eqn:E.
  - apply Bool.eqb_prop in E. split; [discriminate | done].
  - apply Bool.eqb_false_iff in E. done.
Qed.

(** One branch against one PR whose merge data is complete. *)
Lemma correlate_branch_Some merge_sha merged_at merged_dt b r :
  correlate_branch fromisoformat github_compare merge_sha merged_at merged_dt b = Some r →
  ∀ e, In e r ↔
    e = branch_link merged_at b ∧
    ∃ created_dt,
      parse (PyStr.strip (br_createdAt b)) = Some created_dt ∧
      dt_aware created_dt = dt_aware merged_dt ∧
      dt_us merged_dt ≤ dt_us created_dt ∧
      (PyStr.strip (br_sha b) = merge_sha ∨
       (important_branch (PyStr.strip (br_name b)) = true ∧
        check merge_sha (PyStr.strip (br_name b)) = true)).
Proof.
  unfold correlate_branch.
  destruct (parse (PyStr.strip (br_createdAt b))) as [c|] eqn:Hc.
  2:{ intros [= <-] e. split; [done | by intros (_ & ? & [=] & _)]. }
  destruct (dt_lt c merged_dt) as [before|] eqn:Hlt; [|discriminate]. simpl.
  apply dt_lt_Some in Hlt as [Haw ->].
  destruct (dt_us c <? dt_us merged_dt) eqn:Hcmp.
  { apply Z.ltb_lt in Hcmp. intros [= <-] e. split; [done|].
    intros (_ & c' & [= <-] & _ & Hle & _). lia. }
  apply Z.ltb_ge in Hcmp.
  destruct (String.eqb (PyStr.strip (br_sha b)) merge_sha) eqn:Hsha.
  { apply String.eqb_eq in Hsha. intros [= <-] e. simpl. split.
    - intros [<- | []]. split; [done|]. exists c. repeat split; auto.
    - intros [-> _]. by left. }
  apply String.eqb_neq in Hsha.
  destruct (important_branch (PyStr.strip (br_name b))) eqn:Himp.
  - destruct (check merge_sha (PyStr.strip (br_name b))) eqn:Hchk.
    + intros [= <-] e. simpl. split.
      * intros [<- | []]. split; [done|]. exists c. repeat split; auto.
      * intros [-> _]. by left.
    + intros [= <-] e. split; [done|].
      intros (_ & c' & _ & _ & _ & [? | [_ ?]]); congruence.
  - intros [= <-] e. split; [done|].
    intros (_ & c' & _ & _ & _ & [? | [? _]]); congruence.
Qed.

Lemma correlate_branch_None merge_sha merged_at merged_dt b :
  correlate_branch fromisoformat github_compare merge_sha merged_at merged_dt b = None ↔
  ∃ created_dt,
    parse (PyStr.strip (br_createdAt b)) = Some created_dt ∧
    dt_aware created_dt ≠ dt_aware merged_dt.
Proof.
  unfold correlate_branch.
  destruct (parse (PyStr.strip (br_createdAt b))) as [c|] eqn:Hc.
  2:{ split; [discriminate | by intros (? & [=] & _)]. }
  destruct (dt_lt c merged_dt) as [before|] eqn:Hlt; simpl.
  - apply dt_lt_Some in Hlt as [Haw _]. split.
    + repeat case_match; discriminate.
    + intros (c' & [= <-] & Hne). done.
  - apply dt_lt_None in Hlt. split; [|done]. intros _. by exists c.
Qed.

Lemma correlate_pr_Some branches pr r :
  correlate_pr fromisoformat github_compare branches pr = Some r →
  ∀ e, In e r ↔
    ∃ b, In b branches ∧ attachable fromisoformat github_compare pr b ∧
         e = branch_link (PyStr.strip (pr_mergedAt pr)) b.
Proof.
  unfold correlate_pr, attachable.
  destruct (parse (PyStr.strip (pr_mergedAt pr))) as [m|] eqn:Hm.
  2:{ intros [= <-] e. split; [done|]. by intros (b & _ & (_ & ? & ? & [=] & _) & _). }
  destruct (PyStr.nonempty (PyStr.strip (pr_mergeSha pr))) eqn:Hsha; simpl.
  2:{ apply PyStrFacts.nonempty_false in Hsha. intros [= <-] e. split; [done|].
      by intros (b & _ & (? & _) & _). }
  apply PyStrFacts.nonempty_true in Hsha.
  intros Hfe e. rewrite (for_each_Some _ _ _ Hfe). split.
  - intros (b & rb & Hb & Hrb & He).
    apply (correlate_branch_Some _ _ _ _ _ Hrb) in He as (-> & c & Hc & Haw & Hle & Hreach).
    exists b. repeat split; try done. exists m, c. done.
  - intros (b & Hb & (_ & m' & c & [= <-] & Hc & Haw & Hle & Hreach) & ->).
    destruct (correlate_branch fromisoformat github_compare
                (PyStr.strip (pr_mergeSha pr)) (PyStr.strip (pr_mergedAt pr)) m b)
      as [rb|] eqn:Hrb.
    + exists b, rb. repeat split; try done.
      apply (correlate_branch_Some _ _ _ _ _ Hrb). split; [done|]. by exists c.
    + apply correlate_branch_None in Hrb as (c' & Hc' & Hne). congruence.
Qed.

Lemma correlate_pr_None branches pr :
  correlate_pr fromisoformat github_compare branches pr = None ↔
  ∃ b, In b branches ∧ incomparable fromisoformat pr b.
Proof.
  unfold correlate_pr, incomparable.
  destruct (parse (PyStr.strip (pr_mergedAt pr))) as [m|] eqn:Hm.
  2:{ split; [discriminate|]. by intros (b & _ & _ & ? & ? & [=] & _). }
  destruct (PyStr.nonempty (PyStr.strip (pr_mergeSha pr))) eqn:Hsha; simpl.
  2:{ apply PyStrFacts.nonempty_false in Hsha. split; [discriminate|].
      by intros (b & _ & ? & _). }
  apply PyStrFacts.nonempty_true in Hsha.
  rewrite for_each_None. split.
  - intros (b & Hb & Hn). apply correlate_branch_None in Hn as (c & Hc & Hne).
    exists b. repeat split; try done. by exists m, c.
  - intros (b & Hb & _ & m' & c & [= <-] & Hc & Hne).
    exists b. split; [done|]. apply correlate_branch_None. by exists c.
Qed.

(** C2: the correlation is fail-closed. When the function returns, a
    link is in its result exactly when it is the link of a PR and a branch
    of the inputs such that the PR has a merge sha and a parseable merge
    time, the branch has a parseable creation time at or after the merge,
    and the merge sha is the branch tip or, on main, master or release/*,
    the full reachability check succeeds; a missing or unparseable timestamp
    or a missing sha attaches nothing. The only other outcome is the
    exception raised when an offset-carrying timestamp meets one without. *)
Theorem pr_branch_correlation_fail_closed (prs : list PullRequest)
    (repo_branches : list Branch) :
  match correlate prs repo_branches with
  | Some links =>
      ∀ e, In e links ↔
        ∃ pr b, In pr prs ∧ In b repo_branches ∧
                attachable fromisoformat github_compare pr b ∧
                e = branch_link (PyStr.strip (pr_mergedAt pr)) b
  | None =>
      ∃ pr b, In pr prs ∧ In b repo_branches ∧ incomparable fromisoformat pr b
  end.
Proof.
  unfold correlate_prs_with_branches_time_aware.
  destruct prs as [|pr0 prs']; [intros e; split; [done | by intros (? & ? & [] & _)]|].
  destruct repo_branches as [|b0 bs']; [intros e; split; [done | by intros (? & ? & _ & [] & _)]|].
  set (prs := pr0 :: prs'). set (bs := b0 :: bs').
  destruct (for_each (correlate_pr fromisoformat github_compare bs) prs) as [links|] eqn:Hfe.
  - intros e. rewrite (for_each_Some _ _ _ Hfe). split.
    + intros (pr & r & Hpr & Hr & He).
      apply (correlate_pr_Some _ _ _ Hr) in He as (b & Hb & Hatt & ->). by exists pr, b.
    + intros (pr & b & Hpr & Hb & Hatt & ->).
      destruct (correlate_pr fromisoformat github_compare bs pr) as [r|] eqn:Hr.
      * exists pr, r. repeat split; try done.
        apply (correlate_pr_Some _ _ _ Hr). by exists b.
      * exfalso. assert (for_each (correlate_pr fromisoformat github_compare bs) prs = None)
          as Hn by (apply for_each_None; eauto). congruence.
  - apply for_each_None in Hfe as (pr & Hpr & Hn).
    apply correlate_pr_None in Hn as (b & Hb & Hinc). by exists pr, b.
Qed.

End TimeAwareFacts.

(** ** Observability collector: candidate mode *)

Section ObservabilityFacts.

Variable dd : nat → string → option Qc * string.
Variable base_tags : list string.

(** The pass the collector makes for candidate [env_tag] when it starts at
    query number [n]. *)
Definition candidate_pass (n : nat) (env_tag : string) : metric_pass :=
  query_specs dd n (_dd_join_tags (base_tags ++ [env_tag])) metric_specs.

Lemma query_specs_queries n t specs :
  length (pass_queries (query_specs dd n t specs)) = length specs.
Proof.
  revert n. induction specs as [|[k [tmpl norm]] rest IH]; intros n; simpl; [done|].
  destruct (dd n (metric_query tmpl t)) as [v reason]. simpl. by rewrite IH.
Qed.

(** A pass is [ok_any] exactly when one of its queries came back with
    reason [ok] and a value. *)
Lemma query_specs_ok_any n t specs :
  pass_ok_any (query_specs dd n t specs) = true ↔
  ∃ i k tmpl norm v,
    specs !! i = Some (k, (tmpl, norm)) ∧
    dd (n + i)%nat (metric_query tmpl t) = (Some v, "ok").
Proof.
  revert n. induction specs as [|[k [tmpl norm]] rest IH]; intros n; simpl.
  - split; [discriminate | by intros (i & ? & ? & ? & ? & [=] & _)].
  - destruct (dd n (metric_query tmpl t)) as [v reason] eqn:Hq. simpl.
    rewrite orb_true_iff, andb_true_iff, String.eqb_eq, bool_decide_eq_true, IH.
    split.
    + intros [[-> Hv] | (i & k' & tmpl' & norm' & v' & Hi & Hd)].
      * destruct v as [v|]; [|done].
        exists 0%nat, k, tmpl, norm, v. by rewrite Nat.add_0_r.
      * exists (S i), k', tmpl', norm', v'. split; [done|].
        by rewrite <- Nat.add_succ_comm.
    + intros ([|i] & k' & tmpl' & norm' & v' & Hi & Hd).
      * left. simpl in Hi. injection Hi as <- <- <-.
        rewrite Nat.add_0_r, Hq in Hd. by injection Hd as -> ->.
      * right. exists i, k', tmpl', norm', v'. split; [done|].
        by rewrite Nat.add_succ_comm.
Qed.

Lemma try_candidates_cons n c rest :
  try_candidates dd n base_tags (c :: rest) =
  if pass_ok_any (candidate_pass n c)
  then (Some (base_tags ++ [c], candidate_pass n c), pass_queries (candidate_pass n c))
  else (fst (try_candidates dd (n + 5) base_tags rest),
        pass_queries (candidate_pass n c)
          ++ snd (try_candidates dd (n + 5) base_tags rest)).
Proof.
  cbn [try_candidates]. fold (candidate_pass n c).
  change (length metric_specs) with 5%nat.
  destruct (pass_ok_any (candidate_pass n c)); [done|].
  by destruct (try_candidates dd (n + 5) base_tags rest).
Qed.

Lemma candidate_pass_queries n c : length (pass_queries (candidate_pass n c)) = 5%nat.
Proof. unfold candidate_pass. by rewrite query_specs_queries. Qed.

Lemma try_candidates_none n cands :
  (∀ i c, cands !! i = Some c →
          pass_ok_any (candidate_pass (n + 5 * i) c) = false) →
  ∃ qs, try_candidates dd n base_tags cands = (None, qs) ∧
        length qs = (5 * length cands)%nat.
Proof.
  revert n. induction cands as [|c cands IH]; intros n Hno.
  - by exists [].
  - pose proof (Hno 0%nat c eq_refl) as H0.
    rewrite Nat.mul_0_r, Nat.add_0_r in H0.
    rewrite try_candidates_cons, H0.
    destruct (IH (n + 5)%nat) as (qs & Hqs & Hlen).
    { intros i c' Hi. specialize (Hno (S i) c' Hi).
      replace (n + 5 + 5 * i)%nat with (n + 5 * S i)%nat by lia. exact Hno. }
    rewrite Hqs. eexists. split; [done|].
    cbn [snd length]. rewrite length_app, candidate_pass_queries, Hlen. lia.
Qed.

Lemma try_candidates_first_ok n pre c post :
  (∀ i c', pre !! i = Some c' →
           pass_ok_any (candidate_pass (n + 5 * i) c') = false) →
  pass_ok_any (candidate_pass (n + 5 * length pre) c) = true →
  ∃ qs, try_candidates dd n base_tags (pre ++ c :: post) =
          (Some (base_tags ++ [c], candidate_pass (n + 5 * length pre) c), qs) ∧
        length qs = (5 * (length pre + 1))%nat.
Proof.
  revert n. induction pre as [|c0 pre IH]; intros n Hno Hok.
  - cbn [length] in *. rewrite Nat.mul_0_r, Nat.add_0_r in *.
    cbn [app]. rewrite try_candidates_cons, Hok.
    eexists. split; [done|]. by rewrite candidate_pass_queries.
  - pose proof (Hno 0%nat c0 eq_refl) as H0.
    rewrite Nat.mul_0_r, Nat.add_0_r in H0.
    cbn [app]. rewrite try_candidates_cons, H0.
    destruct (IH (n + 5)%nat) as (qs & Hqs & Hlen).
    { intros i c' Hi. specialize (Hno (S i) c' Hi).
      replace (n + 5 + 5 * i)%nat with (n + 5 * S i)%nat by lia. exact Hno. }
    { replace (n + 5 + 5 * length pre)%nat
        with (n + 5 * length (c0 :: pre))%nat by (cbn [length]; lia). exact Hok. }
    rewrite Hqs.
    replace (n + 5 + 5 * length pre)%nat
      with (n + 5 * length (c0 :: pre))%nat by (cbn [length]; lia).
    eexists. split; [done|].
    cbn [snd length]. rewrite length_app, candidate_pass_queries, Hlen. lia.
Qed.

(** C8: with no env selector configured the collector walks the tag
    candidates in order, five queries each. The first candidate whose pass
    has a query answered [ok] with a value becomes [usedTags]; its
    normalised metrics are kept, no warning is emitted and no later
    candidate is queried. When no candidate has such an answer, [usedTags]
    stays empty, every metric is [None] and one no-data warning is
    emitted. *)
Theorem candidate_mode_resolution (project_key env_key : string)
    (tag_candidates : list string) (env_selector component_selector : option selector) :
  selector_truthy env_selector = false →
  let '(out, warnings, queries) :=
    datadog_collect_observability dd project_key env_key base_tags tag_candidates
      env_selector component_selector in
  (∀ pre c post,
     tag_candidates = pre ++ c :: post →
     (∀ i c', pre !! i = Some c' →
              pass_ok_any (candidate_pass (5 * i) c') = false) →
     pass_ok_any (candidate_pass (5 * length pre) c) = true →
     obs_usedTags out = Some (base_tags ++ [c]) ∧
     obs_metrics out = pass_metrics (candidate_pass (5 * length pre) c) ∧
     obs_reasons out = pass_reasons (candidate_pass (5 * length pre) c) ∧
     warnings = [] ∧
     length queries = (5 * (length pre + 1))%nat) ∧
  ((∀ i c, tag_candidates !! i = Some c →
           pass_ok_any (candidate_pass (5 * i) c) = false) →
   obs_usedTags out = None ∧
   obs_metrics out = no_metrics ∧
   (∃ w, warnings = [w] ∧ dict_get "type" w = Some "datadog_observability_no_data") ∧
   length queries = (5 * length tag_candidates)%nat) ∧
  (∀ n c, pass_ok_any (candidate_pass n c) = true ↔
     ∃ i k tmpl norm v,
       metric_specs !! i = Some (k, (tmpl, norm)) ∧
       dd (n + i)%nat (metric_query tmpl (_dd_join_tags (base_tags ++ [c])))
         = (Some v, "ok")).
Proof.
  intros Hsel. unfold datadog_collect_observability. rewrite Hsel.
  destruct (try_candidates dd 0 base_tags tag_candidates) as [chosen qs] eqn:Htry.
  assert (Hthird : ∀ n c, pass_ok_any (candidate_pass n c) = true ↔
     ∃ i k tmpl norm v,
       metric_specs !! i = Some (k, (tmpl, norm)) ∧
       dd (n + i)%nat (metric_query tmpl (_dd_join_tags (base_tags ++ [c])))
         = (Some v, "ok")).
  { intros n c. apply query_specs_ok_any. }
  destruct chosen as [[tagset p]|].
  - split; [|split; [|exact Hthird]].
    + intros pre c post -> Hno Hok.
      destruct (try_candidates_first_ok 0 pre c post Hno Hok) as (qs' & Heq & Hlen).
      rewrite Htry in Heq. injection Heq as -> -> ->. simpl. done.
    + intros Hno.
      destruct (try_candidates_none 0 tag_candidates Hno) as (qs' & Heq & _).
      rewrite Htry in Heq. discriminate Heq.
  - split; [|split; [|exact Hthird]].
    + intros pre c post -> Hno Hok.
      destruct (try_candidates_first_ok 0 pre c post Hno Hok) as (qs' & Heq & Hlen).
      rewrite Htry in Heq. discriminate Heq.
    + intros Hno.
      destruct (try_candidates_none 0 tag_candidates Hno) as (qs' & Heq & Hlen).
      rewrite Htry in Heq. injection Heq as ->. simpl.
      repeat split; try done. eexists. split; [done|]. reflexivity.
Qed.

End ObservabilityFacts.

(** Witness for C8, the worked example of the specification: [env:qa] has
    no data and [kube_namespace:qa] returns 0.37 for the CPU query, so the
    second candidate is used, [cpuPct] is 37 and no warning is emitted. *)
Lemma candidate_mode_resolution_witness :
  let r := datadog_collect_observability example_datadog "P1" "qa" []
             ["env:qa"; "kube_namespace:qa"] None None in
  obs_usedTags (fst (fst r)) = Some ["kube_namespace:qa"] ∧
  dict_get "cpuPct" (obs_metrics (fst (fst r))) = Some (Some (Qc_of_Z 37)) ∧
  snd (fst r) = [] ∧
  length (snd r) = 10%nat.
Proof.
  cbv zeta.
  pose proof (candidate_mode_resolution example_datadog [] "P1" "qa"
                ["env:qa"; "kube_namespace:qa"] None None eq_refl) as H.
  destruct (datadog_collect_observability example_datadog "P1" "qa" []
              ["env:qa"; "kube_namespace:qa"] None None) as [[out ws] qs].
  destruct H as [H _].
  destruct (H ["env:qa"] "kube_namespace:qa" [] eq_refl) as (Hu & Hm & _ & Hw & Hq).
  - intros [|i] c' Hi; [|destruct i; discriminate Hi].
    injection Hi as <-. reflexivity.
  - reflexivity.
  - cbn [fst snd]. rewrite Hu, Hm, Hw, Hq. repeat split.
    vm_compute. do 2 f_equal. apply Qc_is_canon. reflexivity.
Defined.

(** ** Release history: tag-change events *)

Section Dictionaries.
Context {K V : Type} `{EqDecision K}.
Implicit Types (d : list (K * V)) (k : K) (v : V).

Lemma kv_get_In k v d : kv_get k d = Some v → In (k, v) d.
Proof.
  induction d as [|[k' v'] d IH]; simpl; [discriminate|].
  case_decide as Hk; [intros [= <-]; subst; by left | auto].
Qed.

Lemma kv_get_NoDup k v d : NoDup (d.*1) → In (k, v) d → kv_get k d = Some v.
Proof.
  induction d as [|[k' v'] d IH]; simpl; [done|].
  rewrite NoDup_cons. intros [Hk' Hnd] [[= -> ->] | Hin].
  - by rewrite decide_True.
  - rewrite decide_False; [auto|]. intros ->. apply Hk'.
    apply list_elem_of_In in Hin. by apply (list_elem_of_fmap_2 fst) in Hin.
Qed.

Lemma kv_set_In k v d k' v' :
  In (k', v') (kv_set k v d) → (k' = k ∧ v' = v) ∨ In (k', v') d.
Proof.
  induction d as [|[k0 v0] d IH]; simpl.
  - intros [[= <- <-] | []]. by left.
  - case_decide as Hk; simpl.
    + intros [[= <- <-] | Hin]; [by left | by right; right].
    + intros [Heq | Hin]; [by right; left|]. destruct (IH Hin); auto.
Qed.

Lemma kv_set_keys k v d :
  (kv_set k v d).*1 = if decide (k ∈ d.*1) then d.*1 else d.*1 ++ [k].
Proof.
  induction d as [|[k0 v0] d IH].
  - destruct (decide (k ∈ ([] : list (K * V)).*1)) as [Hin|_]; [|done].
    by apply elem_of_nil in Hin.
  - cbn [kv_set]. destruct (decide (k0 = k)) as [->|Hk].
    + destruct (decide (k ∈ ((k, v0) :: d).*1)) as [_|Hnin]; [done|].
      exfalso. apply Hnin. by left.
    + cbn [fmap list_fmap fst]. fold (fmap (M:=list) (@fst K V)). rewrite IH.
      destruct (decide (k ∈ d.*1)) as [Hin|Hnin].
      * destruct (decide (k ∈ k0 :: d.*1)) as [_|Hn]; [done|].
        exfalso. apply Hn. by right.
      * destruct (decide (k ∈ k0 :: d.*1)) as [Hi|_]; [|done].
        apply elem_of_cons in Hi as [->|Hi]; done.
Qed.

Lemma kv_set_NoDup k v d : NoDup (d.*1) → NoDup ((kv_set k v d).*1).
Proof.
  intros Hnd. rewrite kv_set_keys. case_decide as Hin; [done|].
  apply NoDup_app. repeat split; [done | | apply NoDup_singleton].
  intros x Hx ->%list_elem_of_singleton. done.
Qed.

End Dictionaries.

Section TagChange.
Import PyStr PyStrFacts.

Variable iso_now : nat → string.

(** The key an event is about, and the events of a result about a key. *)
Definition event_key (ev : HistoryEvent) : comp_key :=
  (he_projectKey ev, he_envKey ev, he_component ev).

Definition all_events (out : list (string * list HistoryEvent)) : list HistoryEvent :=
  flat_map snd out.

Definition events_for (key : comp_key) (out : list (string * list HistoryEvent))
    : list HistoryEvent :=
  filter (λ ev, event_key ev = key) (all_events out).

(** The event the loop builds for one item of the current map. *)
Definition item_event (now : string) (prev_map : list (comp_key * comp_entry))
    (item : comp_key * comp_entry) : HistoryEvent :=
  _mk_history_event now (fst (fst (fst item))) (ce_env (snd item)) (ce_comp (snd item))
    (prev_tag_of prev_map (fst item)) (PyStr.strip (comp_tag (ce_comp (snd item)))).

Definition item_changed (prev_map : list (comp_key * comp_entry))
    (item : comp_key * comp_entry) : bool :=
  tag_changed (prev_tag_of prev_map (fst item)) (PyStr.strip (comp_tag (ce_comp (snd item)))).

(** The events of the loop in the order they are built. *)
Fixpoint raw_events (i : nat) (prev_map items : list (comp_key * comp_entry))
    : list HistoryEvent :=
  match items with
  | [] => []
  | item :: rest =>
      (if item_changed prev_map item then [item_event (iso_now i) prev_map item] else [])
      ++ raw_events (S i) prev_map rest
  end.

(** *** The component map *)

Definition map_ok (d : list (comp_key * comp_entry)) : Prop :=
  NoDup (d.*1) ∧ ∀ k e, In (k, e) d → entry_key e = k ∧ key_complete k = true.

Lemma component_map_fold_ok entries d :
  map_ok d →
  map_ok (fold_left
            (λ out e, if key_complete (entry_key e) then kv_set (entry_key e) e out else out)
            entries d).
Proof.
  revert d. induction entries as [|e entries IH]; intros d Hd; [exact Hd|].
  cbn [fold_left]. apply IH. destruct (key_complete (entry_key e)) eqn:Hc; [|exact Hd].
  destruct Hd as [Hnd Hall]. split; [by apply kv_set_NoDup|].
  intros k e' Hin. apply kv_set_In in Hin as [[-> ->] | Hin]; auto.
Qed.

Lemma component_map_ok snapshot : map_ok (_component_map snapshot).
Proof.
  apply component_map_fold_ok. split; [constructor | intros ? ? []].
Qed.

(** *** Grouping and sorting keep the events *)

Lemma kv_append_events k x (d : list (string * list HistoryEvent)) :
  all_events (kv_append k x d) ≡ₚ all_events d ++ [x].
Proof.
  unfold all_events. induction d as [|[k' xs] d IH]; simpl; [done|].
  case_decide; simpl.
  - rewrite <- !app_assoc. f_equiv. apply app_Permutation_comm.
  - rewrite IH. by rewrite app_assoc.
Qed.

Lemma insert_desc_perm {A} (key : A → string) x l : insert_desc key x l ≡ₚ x :: l.
Proof.
  induction l as [|y l IH]; simpl; [done|].
  destruct (PyStr.lt (key x) (key y)); [|done].
  rewrite IH. apply Permutation_swap.
Qed.

Lemma sort_desc_perm {A} (key : A → string) l : sort_desc key l ≡ₚ l.
Proof.
  induction l as [|x l IH]; simpl; [done|]. by rewrite insert_desc_perm, IH.
Qed.

Lemma sorted_events out :
  all_events (map (λ kv, (fst kv, sort_desc he_at (snd kv))) out) ≡ₚ all_events out.
Proof.
  unfold all_events. induction out as [|[k xs] out IH]; simpl; [done|].
  by rewrite sort_desc_perm, IH.
Qed.

Lemma tag_change_loop_events i prev_map items out :
  all_events (tag_change_loop iso_now i prev_map items out)
  ≡ₚ all_events out ++ raw_events i prev_map items.
Proof.
  revert i out. induction items as [|[[[pkey ekey] cname] cur] items IH]; intros i out.
  - simpl. by rewrite app_nil_r.
  - cbn [tag_change_loop raw_events]. rewrite IH.
    unfold item_changed, item_event. cbn [fst snd].
    destruct (tag_changed _ _); [|done].
    rewrite kv_append_events. by rewrite <- app_assoc.
Qed.

Lemma compute_events_perm prev cur :
  all_events (compute_tag_change_events iso_now prev cur)
  ≡ₚ raw_events 0 (_component_map prev) (_component_map cur).
Proof.
  unfold compute_tag_change_events. by rewrite sorted_events, tag_change_loop_events.
Qed.

(** *** The event of a key *)

Lemma normalize_env_key_default raw :
  default "" (_normalize_env_key raw) = lower (strip raw).
Proof.
  unfold _normalize_env_key. destruct raw as [|c raw]; [reflexivity|].
  cbn [nonempty negb]. destruct (strip (String c raw)) eqn:E; reflexivity.
Qed.

Lemma item_event_key now prev_map k e :
  entry_key e = k → event_key (item_event now prev_map (k, e)) = k.
Proof.
  intros <-. unfold event_key, item_event, _mk_history_event, entry_key. cbn.
  by rewrite normalize_env_key_default.
Qed.

Lemma raw_events_other i prev_map items key :
  (∀ k e, In (k, e) items → entry_key e = k) →
  key ∉ items.*1 →
  filter (λ ev, event_key ev = key) (raw_events i prev_map items) = [].
Proof.
  revert i. induction items as [|[k e] items IH]; intros i Hok Hnin; [done|].
  cbn [raw_events]. rewrite filter_app, IH.
  - rewrite app_nil_r. destruct (item_changed prev_map (k, e)); [|done].
    rewrite filter_cons, decide_False; [done|].
    rewrite item_event_key by (apply Hok; by left).
    intros ->. apply Hnin. by left.
  - intros k' e' Hin. apply Hok. by right.
  - intros Hin. apply Hnin. by right.
Qed.

Lemma raw_events_for i prev_map items key e :
  NoDup (items.*1) →
  (∀ k e, In (k, e) items → entry_key e = k) →
  In (key, e) items →
  ∃ j, filter (λ ev, event_key ev = key) (raw_events i prev_map items) =
       if item_changed prev_map (key, e)
       then [item_event (iso_now j) prev_map (key, e)] else [].
Proof.
  revert i. induction items as [|[k0 e0] items IH]; intros i Hnd Hok Hin; [done|].
  cbn [fmap list_fmap fst] in Hnd. apply NoDup_cons in Hnd as [Hk0 Hnd].
  cbn [raw_events]. rewrite filter_app.
  destruct Hin as [[= -> ->] | Hin].
  - exists i. rewrite raw_events_other; [| intros; apply Hok; by right | done].
    rewrite app_nil_r. destruct (item_changed prev_map (key, e)); [|done].
    rewrite filter_cons, decide_True; [done|].
    apply item_event_key, Hok. by left.
  - destruct (IH (S i) Hnd) as [j Hj]; [intros; apply Hok; by right | done |].
    exists j. rewrite Hj.
    assert (k0 ≠ key) as Hne.
    { intros ->. apply Hk0. apply list_elem_of_In in Hin.
      by apply (list_elem_of_fmap_2 fst) in Hin. }
    destruct (item_changed prev_map (k0, e0)); [|done].
    rewrite filter_cons, decide_False; [done|].
    rewrite item_event_key by (apply Hok; by left). done.
Qed.

Lemma tag_changed_spec prev_tag cur_tag :
  tag_changed prev_tag cur_tag = true ↔
  prev_tag ≠ "" ∧ cur_tag ≠ "" ∧ prev_tag ≠ cur_tag.
Proof.
  unfold tag_changed.
  rewrite !andb_true_iff, negb_true_iff, !nonempty_true, String.eqb_neq. tauto.
Qed.

End TagChange.

Section StripFacts.
Import PyStr.

Definition no_leading_space (s : string) : Prop :=
  match s with
  | EmptyString => True
  | String c _ => is_space c = false
  end.

Lemma rstrip_cons c t :
  rstrip (String c t) =
  match rstrip t with
  | EmptyString => if is_space c then EmptyString else String c EmptyString
  | t' => String c t'
  end.
Proof. reflexivity. Qed.

Lemma rstrip_idem s : rstrip (rstrip s) = rstrip s.
Proof.
  induction s as [|c t IH]; [done|]. rewrite rstrip_cons.
  destruct (rstrip t) as [|a r] eqn:Hr.
  - destruct (is_space c) eqn:Hc; [done|]. rewrite rstrip_cons. cbn [rstrip]. by rewrite Hc.
  - rewrite rstrip_cons, IH. done.
Qed.

Lemma lstrip_no_leading s : no_leading_space (lstrip s).
Proof.
  induction s as [|c t IH]; [done|]. cbn [lstrip].
  destruct (is_space c) eqn:Hc; [exact IH | exact Hc].
Qed.

Lemma lstrip_id s : no_leading_space s → lstrip s = s.
Proof. destruct s as [|c t]; [done|]. simpl. by intros ->. Qed.

Lemma rstrip_no_leading s : no_leading_space s → no_leading_space (rstrip s).
Proof.
  destruct s as [|c t]; [done|]. rewrite rstrip_cons. cbn [no_leading_space]. intros Hc.
  destruct (rstrip t); [by rewrite Hc | done].
Qed.

Lemma strip_idem s : strip (strip s) = strip s.
Proof.
  unfold strip. rewrite (lstrip_id (rstrip (lstrip s))).
  - apply rstrip_idem.
  - apply rstrip_no_leading, lstrip_no_leading.
Qed.

End StripFacts.

Section TagChangeClaim.
Import PyStr PyStrFacts.

Variable iso_now : nat → string.

(** C3: for a (project, env, component) key present in the previous and
    in the current component map, the result holds exactly one event about
    the key when the stripped previous and current tags are both non-empty
    and differ, and none otherwise. That event is a TAG_CHANGE whose [at] is
    the component's [deployedAt], or the clock when that is empty; whose
    [fromBuild] and [toBuild] are the build numbers of the two tags; and
    whose id is [sha:project:env:component:toTag] when a commit sha is
    extracted from the deployer commit URL, else
    [project:env:component:toTag:at]. *)
Theorem tag_change_event_derivation (prev cur : Snapshot)
    (pkey ekey cname : string) (prev_e cur_e : comp_entry) :
  kv_get (pkey, ekey, cname) (_component_map prev) = Some prev_e →
  kv_get (pkey, ekey, cname) (_component_map cur) = Some cur_e →
  let prev_tag := strip (comp_tag (ce_comp prev_e)) in
  let cur_tag := strip (comp_tag (ce_comp cur_e)) in
  let comp := ce_comp cur_e in
  let evs := events_for (pkey, ekey, cname) (compute_tag_change_events iso_now prev cur) in
  ((prev_tag ≠ "" ∧ cur_tag ≠ "" ∧ prev_tag ≠ cur_tag) ↔ ∃ ev, evs = [ev]) ∧
  (¬ (prev_tag ≠ "" ∧ cur_tag ≠ "" ∧ prev_tag ≠ cur_tag) ↔ evs = []) ∧
  ∀ ev, In ev evs →
    he_kind ev = "TAG_CHANGE" ∧
    he_fromTag ev = prev_tag ∧ he_toTag ev = cur_tag ∧
    he_fromBuild ev = extract_build_number prev_tag ∧
    he_toBuild ev = extract_build_number cur_tag ∧
    (strip (comp_deployedAt comp) ≠ "" → he_at ev = strip (comp_deployedAt comp)) ∧
    (strip (comp_deployedAt comp) = "" → ∃ i, he_at ev = iso_now i) ∧
    let sha := _extract_commit_sha (strip (comp_deployerCommitUrl comp)) in
    (sha ≠ "" →
       he_id ev = sha +:+ ":" +:+ pkey +:+ ":" +:+ ekey +:+ ":" +:+ cname
                      +:+ ":" +:+ cur_tag) ∧
    (sha = "" →
       he_id ev = pkey +:+ ":" +:+ ekey +:+ ":" +:+ cname +:+ ":" +:+ cur_tag
                      +:+ ":" +:+ he_at ev).
Proof.
  intros Hprev Hcur. cbv zeta.
  destruct (component_map_ok cur) as [Hnd Hok].
  pose proof (kv_get_In _ _ _ Hcur) as Hin.
  destruct (Hok _ _ Hin) as [Hkey Hcomplete].
  destruct (raw_events_for iso_now 0 (_component_map prev) (_component_map cur)
              (pkey, ekey, cname) cur_e Hnd) as [j Hj];
    [intros k e He; by apply Hok | done |].
  assert (Hevs : events_for (pkey, ekey, cname) (compute_tag_change_events iso_now prev cur)
                 = if item_changed (_component_map prev) (pkey, ekey, cname, cur_e)
                   then [item_event (iso_now j) (_component_map prev) (pkey, ekey, cname, cur_e)]
                   else []).
  { unfold events_for.
    pose proof (compute_events_perm iso_now prev cur) as Hperm.
    apply (filter_Permutation (λ ev, event_key ev = (pkey, ekey, cname))) in Hperm.
    rewrite Hj in Hperm.
    destruct (item_changed _ _).
    - by apply Permutation_singleton_r.
    - by apply Permutation_nil_r. }
  rewrite Hevs. clear Hevs Hj.
  unfold item_changed, item_event, prev_tag_of, comp_key. cbn [fst snd]. rewrite Hprev.
  pose proof (tag_changed_spec (strip (comp_tag (ce_comp prev_e)))
                (strip (comp_tag (ce_comp cur_e)))) as Hspec.
  destruct (tag_changed _ _) eqn:Hch.
  - assert (Hyes : strip (comp_tag (ce_comp prev_e)) ≠ "" ∧
                   strip (comp_tag (ce_comp cur_e)) ≠ "" ∧
                   strip (comp_tag (ce_comp prev_e)) ≠ strip (comp_tag (ce_comp cur_e)))
      by (by apply Hspec).
    split; [|split].
    + split; [intros _; eauto | done].
    + split; [done | discriminate].
    + intros ev [<- | []]. unfold _mk_history_event. cbn.
      rewrite normalize_env_key_default, !strip_idem.
      injection Hkey as _ Hekey Hcname. rewrite Hekey, Hcname.
      repeat split; try done.
      * intros Hne. unfold or_else.
        apply nonempty_true in Hne. by rewrite Hne.
      * intros He. exists j. by rewrite He.
      * intros Hsha. apply nonempty_true in Hsha. by rewrite Hsha.
      * intros Hsha. by rewrite Hsha.
  - assert (Hno : ¬ (strip (comp_tag (ce_comp prev_e)) ≠ "" ∧
                     strip (comp_tag (ce_comp cur_e)) ≠ "" ∧
                     strip (comp_tag (ce_comp prev_e)) ≠ strip (comp_tag (ce_comp cur_e)))).
    { intros H. apply Hspec in H. discriminate H. }
    split; [|split].
    + split; [done | by intros [ev [=]]].
    + done.
    + intros ev [].
Qed.

End TagChangeClaim.

(** Witness for C3, the worked example of the specification: one event,
    with id [abc:P1:qa:X:svc-v0.0.11], [fromBuild] 10 and [toBuild] 11. *)
Lemma tag_change_event_derivation_witness :
  let evs := events_for ("P1", "qa", "X")
               (compute_tag_change_events (λ _, "2026-01-19T12:05:00+00:00")
                  example_snapshot_A example_snapshot_B) in
  (∃ ev, evs = [ev]) ∧
  ∀ ev, In ev evs →
    he_id ev = "abc:P1:qa:X:svc-v0.0.11" ∧
    he_fromBuild ev = "10" ∧ he_toBuild ev = "11" ∧
    he_at ev = "2026-01-19T12:00:00Z".
Proof.
  cbv zeta.
  destruct (tag_change_event_derivation (λ _, "2026-01-19T12:05:00+00:00")
              example_snapshot_A example_snapshot_B "P1" "qa" "X"
              (mkEntry (mkProject "P1" [example_env example_component_A])
                       (example_env example_component_A) example_component_A)
              (mkEntry (mkProject "P1" [example_env example_component_B])
                       (example_env example_component_B) example_component_B)
              eq_refl eq_refl) as (Hone & _ & Hev).
  split.
  - apply Hone. repeat split; discriminate.
  - intros ev Hin. destruct (Hev ev Hin) as (_ & _ & _ & Hfb & Htb & Hat & _ & Hid & _).
    repeat split.
    + apply Hid. discriminate.
    + exact Hfb.
    + exact Htb.
    + apply Hat. discriminate.
Defined.

(** ** Persistence floor of ticket environment presence *)

Section PersistenceFloor.
Import PyStr PyStrFacts.

(** What the floor leaves in [envPresenceMeta] for stage [s]. *)
Definition floored_meta (prev st : presence_state) (s : stage) : option meta_dict :=
  if envPresence prev s && negb (envPresence st s)
     && negb (meta_truthy (envPresenceMeta st s))
  then match envPresenceMeta prev s with
       | Some (entry :: more) => Some (carry_forward (entry :: more))
       | _ => envPresenceMeta st s
       end
  else envPresenceMeta st s.

Lemma stage_set_eq {A} (f : stage → A) s v : stage_set f s v s = v.
Proof. unfold stage_set. by rewrite decide_True. Qed.

Lemma stage_set_ne {A} (f : stage → A) s v s' : s' ≠ s → stage_set f s v s' = f s'.
Proof. intros. unfold stage_set. by rewrite decide_False. Qed.

Lemma floor_stage_presence prev st s s' :
  envPresence (floor_stage prev st s) s' =
  if decide (s' = s) then envPresence st s' || envPresence prev s'
  else envPresence st s'.
Proof.
  unfold floor_stage. case_decide as Hs.
  - subst s'. destruct (envPresence prev s) eqn:Hp, (envPresence st s) eqn:Hc;
      cbn [andb negb envPresence orb]; rewrite ?stage_set_eq; done.
  - destruct (envPresence prev s && negb (envPresence st s));
      cbn [envPresence]; [|done].
    by rewrite stage_set_ne.
Qed.

Lemma floor_stage_meta prev st s s' :
  envPresenceMeta (floor_stage prev st s) s' =
  if decide (s' = s) then floored_meta prev st s' else envPresenceMeta st s'.
Proof.
  unfold floor_stage, floored_meta. case_decide as Hs.
  - subst s'. destruct (envPresence prev s && negb (envPresence st s));
      cbn [envPresenceMeta andb]; [|done].
    destruct (meta_truthy (envPresenceMeta st s)); cbn [negb]; [done|].
    destruct (envPresenceMeta prev s) as [[|entry more]|]; try done.
    by rewrite stage_set_eq.
  - destruct (envPresence prev s && negb (envPresence st s));
      cbn [envPresenceMeta]; [|done].
    destruct (meta_truthy (envPresenceMeta st s)); cbn [negb]; [done|].
    destruct (envPresenceMeta prev s) as [[|entry more]|]; try done.
    by rewrite stage_set_ne.
Qed.

Lemma floored_meta_ext prev st st' s :
  envPresence st s = envPresence st' s →
  envPresenceMeta st s = envPresenceMeta st' s →
  floored_meta prev st s = floored_meta prev st' s.
Proof. unfold floored_meta. by intros -> ->. Qed.

(** After the four stages, each stage holds what its own step gave. *)
Lemma floor_all_stages prev st s :
  envPresence (foldl (floor_stage prev) st stage_order) s
    = envPresence st s || envPresence prev s ∧
  envPresenceMeta (foldl (floor_stage prev) st stage_order) s
    = floored_meta prev st s.
Proof.
  unfold stage_order. cbn [foldl]. split.
  - rewrite !floor_stage_presence.
    destruct s; repeat (case_decide; try done); by rewrite <- ?orb_assoc, ?orb_diag.
  - rewrite !floor_stage_meta.
    destruct s; repeat (case_decide; try done);
      apply floored_meta_ext;
      rewrite ?floor_stage_presence, ?floor_stage_meta;
      repeat (case_decide; try done).
Qed.

Lemma dict_get_app {V} k (d1 d2 : list (string * V)) :
  dict_get k (d1 ++ d2) =
  match dict_get k d1 with Some v => Some v | None => dict_get k d2 end.
Proof.
  induction d1 as [|[k' v'] d1 IH]; simpl; [done|].
  by destruct (String.eqb k' k).
Qed.

Lemma dict_setdefault_get {V} k (v : V) k' d :
  dict_get k' (dict_setdefault k v d) =
  match dict_get k' d with
  | Some v' => Some v'
  | None => if String.eqb k k' then Some v else None
  end.
Proof.
  unfold dict_setdefault. destruct (dict_get k d) as [v0|] eqn:Hk.
  - destruct (dict_get k' d) eqn:Hk'; [done|].
    destruct (String.eqb k k') eqn:E; [|done].
    apply String.eqb_eq in E. congruence.
  - rewrite dict_get_app. destruct (dict_get k' d); [done|]. simpl.
    by destruct (String.eqb k k').
Qed.

(** The carried entry keeps every key of the previous entry and fills in
    [source] only when the previous entry has none. *)
Lemma carry_forward_source pm :
  dict_get "source" (carry_forward pm) =
  match dict_get "source" pm with
  | Some v => Some v
  | None => Some (JStr "persisted_prev_snapshot")
  end.
Proof.
  unfold carry_forward. rewrite !dict_setdefault_get.
  by destruct (dict_get "source" pm).
Qed.

Lemma carry_forward_keeps pm k v :
  dict_get k pm = Some v → dict_get k (carry_forward pm) = Some v.
Proof.
  intros H. unfold carry_forward. rewrite !dict_setdefault_get. by rewrite H.
Qed.

End PersistenceFloor.

Section PersistenceFloorClaim.
Import PyStr PyStrFacts.

Variable current_presence : list Project → Ticket → presence_state.

(** C1 amended: when the project list is not empty, for every ticket of
    the index whose key names a ticket of the previous snapshot and every
    stage that was [true] there, [envPresence] of the stage is [true] after
    [add_env_presence_to_ticket_index], and stays [true], with the same
    metadata, through [merge_deployment_presence] with any history. When the
    current snapshot set the stage itself, its metadata is kept. When it did
    not and left no metadata, a non-empty previous entry is carried forward
    with every key it had, and [source] is [persisted_prev_snapshot] only if
    the previous entry had no [source]. *)
Theorem persistence_floor_holds (ticket_index : gmap string Ticket)
    (projects_out : list Project) (prev_index : gmap string presence_state)
    (k : string) (t : Ticket) (prev : presence_state) (s : stage) :
  projects_out ≠ [] →
  ticket_index !! k = Some t →
  strip (t_key t) ≠ "" →
  prev_index !! strip (t_key t) = Some prev →
  envPresence prev s = true →
  let cur := current_presence projects_out t in
  ∃ t' st,
    add_env_presence_to_ticket_index current_presence ticket_index projects_out
      (Some prev_index) !! k = Some t' ∧
    t_presence t' = Some st ∧
    envPresence st s = true ∧
    (envPresence cur s = true → envPresenceMeta st s = envPresenceMeta cur s) ∧
    (envPresence cur s = false → meta_truthy (envPresenceMeta cur s) = false →
     ∀ entry more, envPresenceMeta prev s = Some (entry :: more) →
       envPresenceMeta st s = Some (carry_forward (entry :: more)) ∧
       (∀ key v, dict_get key (entry :: more) = Some v →
                 dict_get key (carry_forward (entry :: more)) = Some v) ∧
       (dict_get "source" (entry :: more) = None →
        dict_get "source" (carry_forward (entry :: more))
          = Some (JStr "persisted_prev_snapshot"))) ∧
    (∀ current_map historical,
       current_map !! k = Some st →
       ∃ merged,
         merge_deployment_presence current_map historical !! k = Some merged ∧
         envPresence merged s = true ∧
         envPresenceMeta merged s = envPresenceMeta st s).
Proof.
  intros Hproj Ht Hkey Hprev Hs. cbv zeta.
  set (cur := current_presence projects_out t).
  set (st := persistence_floor (Some prev_index) t cur).
  exists {| t_key := t_key t; t_presence := Some st |}, st.
  assert (Hst : st = foldl (floor_stage prev) cur stage_order).
  { unfold st, persistence_floor. apply nonempty_true in Hkey. by rewrite Hkey, Hprev. }
  destruct (floor_all_stages prev cur s) as [Hpres Hmeta].
  rewrite <- Hst in Hpres, Hmeta.
  assert (Htrue : envPresence st s = true) by (rewrite Hpres, Hs; apply orb_true_r).
  split; [|split; [done|split; [done|split; [|split]]]].
  - unfold add_env_presence_to_ticket_index.
    rewrite decide_False by (intros ->; by rewrite lookup_empty in Ht).
    destruct projects_out as [|p ps]; [done|].
    by rewrite lookup_fmap, Ht.
  - intros Hcur. rewrite Hmeta. unfold floored_meta. by rewrite Hcur, andb_false_r.
  - intros Hcur Hnone entry more Hpm. split; [|split].
    + rewrite Hmeta. unfold floored_meta. by rewrite Hs, Hcur, Hnone, Hpm.
    + intros key v. apply carry_forward_keeps.
    + intros Hsrc. by rewrite carry_forward_source, Hsrc.
  - intros current_map historical Hcm.
    unfold merge_deployment_presence. rewrite lookup_merge, Hcm.
    destruct (historical !! k) as [h|]; simpl;
      eexists; split; try reflexivity; simpl; by rewrite Htrue.
Qed.

End PersistenceFloorClaim.

(** Witness for C1: ticket [T-1] was in QA in the previous snapshot, with
    metadata that has no [source]; the current snapshot sees nothing. *)
Lemma persistence_floor_holds_witness :
  ∃ t' st,
    add_env_presence_to_ticket_index example_current_nothing example_ticket_index
      example_snapshot_B
      (Some {[ "T-1" := {| envPresence := λ s, bool_decide (s = QA);
                           envPresenceMeta := λ s,
                             if decide (s = QA)
                             then Some [("when", JStr "2026-01-19T12:00:00Z")]
                             else None |} ]}) !! "T-1" = Some t' ∧
    t_presence t' = Some st ∧
    envPresence st QA = true ∧
    envPresenceMeta st QA
      = Some (carry_forward [("when", JStr "2026-01-19T12:00:00Z")]).
Proof.
  destruct (persistence_floor_holds example_current_nothing example_ticket_index
              example_snapshot_B
              {[ "T-1" := {| envPresence := λ s, bool_decide (s = QA);
                             envPresenceMeta := λ s,
                               if decide (s = QA)
                               then Some [("when", JStr "2026-01-19T12:00:00Z")]
                               else None |} ]}
              "T-1" {| t_key := "T-1"; t_presence := None |}
              {| envPresence := λ s, bool_decide (s = QA);
                 envPresenceMeta := λ s,
                   if decide (s = QA)
                   then Some [("when", JStr "2026-01-19T12:00:00Z")]
                   else None |}
              QA)
    as (t' & st & Hlk & Hp & Htrue & _ & Hcarry & _).
  - discriminate.
  - reflexivity.
  - discriminate.
  - reflexivity.
  - reflexivity.
  - exists t', st. repeat split; try done.
    apply (Hcarry eq_refl eq_refl ("when", JStr "2026-01-19T12:00:00Z") [] eq_refl).
Defined.

(** C1 as stated fails twice. With a previous QA entry that names its own
    source, the entry carried forward keeps that source, not
    [persisted_prev_snapshot]; and with an empty project list the function
    returns before it writes any presence. *)
Lemma persisted_source_not_forced :
  (∃ t st m,
     add_env_presence_to_ticket_index example_current_nothing example_ticket_index
       example_snapshot_B (Some example_prev_index) !! "T-1" = Some t ∧
     t_presence t = Some st ∧
     envPresence (example_current_nothing example_snapshot_B
                    {| t_key := "T-1"; t_presence := None |}) QA = false ∧
     envPresence st QA = true ∧
     envPresenceMeta st QA = Some m ∧
     dict_get "source" m = Some (JStr "time_aware_build") ∧
     dict_get "source" m ≠ Some (JStr "persisted_prev_snapshot")) ∧
  (∃ t,
     add_env_presence_to_ticket_index example_current_nothing example_ticket_index
       [] (Some example_prev_index) !! "T-1" = Some t ∧
     t_presence t = None).
Proof.
  split.
  - eexists _, _, _. repeat split; try reflexivity. discriminate.
  - eexists. split; reflexivity.
Qed.

(** ** Timestamp normalisation of the CI adapter *)

Section IsoRendering.
Import PyStr.

Lemma digit_char_code n : N_of_ascii (digit_char n) = (48 + Z.to_N (n mod 10))%N.
Proof.
  unfold digit_char. apply N_ascii_embedding.
  pose proof (Z.mod_pos_bound n 10 eq_refl). lia.
Qed.

Lemma digit_char_is_digit n : is_digit (digit_char n) = true.
Proof.
  unfold is_digit. rewrite digit_char_code.
  pose proof (Z.mod_pos_bound n 10 eq_refl).
  apply andb_true_iff. split; apply N.leb_le; lia.
Qed.

Lemma digit_char_not_plus n : Ascii.eqb "+" (digit_char n) = false.
Proof.
  apply Ascii.eqb_neq. intros H.
  apply (f_equal N_of_ascii) in H. rewrite digit_char_code in H.
  change (N_of_ascii "+") with 43%N in H. lia.
Qed.

Lemma replace_plus_skip c t :
  Ascii.eqb "+" c = false →
  replace_from "+00:00" "Z" 0 (String c t) = String c (replace_from "+00:00" "Z" 0 t).
Proof. intros H. cbn [replace_from startswith]. by rewrite H. Qed.

(** The date and time part of [isoformat_utc], before the offset. *)
Definition iso_body (us : Z) : string :=
  let f := utc_fields_of us in
  pad4 (f_year f) +:+ "-" +:+ pad2 (f_month f) +:+ "-" +:+ pad2 (f_day f)
  +:+ "T" +:+ pad2 (f_hour f) +:+ ":" +:+ pad2 (f_minute f) +:+ ":" +:+ pad2 (f_second f)
  +:+ (if f_microsecond f =? 0 then "" else "." +:+ pad6 (f_microsecond f)).

Lemma isoformat_z_body us : isoformat_z us = iso_body us +:+ "Z".
Proof.
  unfold isoformat_z, isoformat_utc, iso_body, py_replace. cbn [nonempty].
  destruct (utc_fields_of us) as [y m d hh mi ss micro]. cbn [f_year f_month f_day
    f_hour f_minute f_second f_microsecond].
  destruct (micro =? 0);
    cbv [pad6 pad4 pad2 String.append];
    repeat (rewrite replace_plus_skip by (reflexivity || apply digit_char_not_plus));
    reflexivity.
Qed.

(** Whatever the instant, the rendered timestamp has the normalised UTC
    shape. *)
Lemma isoformat_z_shape us : is_iso_utc_z (isoformat_z us) = true.
Proof.
  rewrite isoformat_z_body. unfold iso_body.
  destruct (utc_fields_of us) as [y m d hh mi ss micro]. cbn [f_year f_month f_day
    f_hour f_minute f_second f_microsecond].
  destruct (micro =? 0);
    cbv [pad6 pad4 pad2 String.append is_iso_utc_z substring all_digits
         list_ascii_of_string forallb String.length Nat.eqb];
    rewrite ?digit_char_is_digit; reflexivity.
Qed.

End IsoRendering.

Section VendorFormat.
Import PyStr.

Lemma digit_char_value n :
  Z.of_N (N_of_ascii (digit_char n)) - 48 = n mod 10.
Proof.
  rewrite digit_char_code. pose proof (Z.mod_pos_bound n 10 eq_refl). lia.
Qed.

Lemma digits_value_pad2 n : 0 ≤ n < 100 → digits_value (pad2 n) = n.
Proof.
  intros Hn. unfold digits_value, pad2. cbn [list_ascii_of_string fold_left].
  rewrite !digit_char_value.
  pose proof (Z.div_mod n 10 ltac:(lia)).
  assert (0 ≤ n / 10 < 10) as Hq by (split; [apply Z.div_pos | apply Z.div_lt_upper_bound]; lia).
  rewrite (Z.mod_small (n / 10) 10) by lia. lia.
Qed.

Lemma digits_value_pad4 n : 0 ≤ n < 10000 → digits_value (pad4 n) = n.
Proof.
  intros Hn. unfold digits_value, pad4, pad2.
  cbv [String.append]. cbn [list_ascii_of_string fold_left].
  rewrite !digit_char_value.
  assert (0 ≤ n / 100 < 100) as Hq
    by (split; [apply Z.div_pos | apply Z.div_lt_upper_bound]; lia).
  assert (0 ≤ n / 100 / 10 < 10) as Hq2
    by (split; [apply Z.div_pos | apply Z.div_lt_upper_bound]; lia).
  rewrite (Z.mod_small (n / 100 / 10) 10) by lia.
  pose proof (Z.div_mod (n / 100) 10 ltac:(lia)).
  pose proof (Z.div_mod n 100 ltac:(lia)).
  pose proof (Z.div_mod n 10 ltac:(lia)).
  pose proof (Z.div_mod (n / 10) 10 ltac:(lia)).
  assert (n / 10 / 10 = n / 100) as Hdd by (rewrite Z.div_div by lia; done).
  pose proof (Z.mod_pos_bound (n / 10) 10 eq_refl).
  pose proof (Z.mod_pos_bound n 10 eq_refl).
  pose proof (Z.mod_pos_bound (n / 100) 10 eq_refl).
  lia.
Qed.

Lemma all_digits_pad2 n : all_digits (pad2 n) = true.
Proof.
  unfold all_digits, pad2. cbn [list_ascii_of_string forallb].
  by rewrite !digit_char_is_digit.
Qed.

(** The fixed-width parser reads back the fields a vendor timestamp was
    written from. *)
Lemma strptime_vendor_render y m d hh mi ss negative oh om :
  vendor_fields_valid y m d hh mi ss oh om →
  strptime_vendor (render_vendor y m d hh mi ss negative oh om) =
  Some {| ad_local_us :=
            days_from_civil y m d * US_PER_DAY
            + (hh * 3600 + mi * 60 + ss) * US_PER_SECOND;
          ad_offset_us :=
            if negative then - ((oh * 3600 + om * 60) * US_PER_SECOND)
            else (oh * 3600 + om * 60) * US_PER_SECOND |}.
Proof.
  intros (Hy & Hm & Hd & Hhh & Hmi & Hss & Hoh & Hom).
  unfold strptime_vendor.
  set (s := render_vendor y m d hh mi ss negative oh om).
  assert (Hlen : String.length s = 20%nat) by (unfold s; destruct negative; reflexivity).
  assert (H08 : substring 0 8 s = pad4 y +:+ pad2 m +:+ pad2 d)
    by (unfold s; destruct negative; reflexivity).
  assert (H81 : substring 8 1 s = "T") by (unfold s; destruct negative; reflexivity).
  assert (H96 : substring 9 6 s = pad2 hh +:+ pad2 mi +:+ pad2 ss)
    by (unfold s; destruct negative; reflexivity).
  assert (Hsg : substring 15 1 s = if negative then "-" else "+")
    by (unfold s; destruct negative; reflexivity).
  assert (H164 : substring 16 4 s = pad2 oh +:+ pad2 om)
    by (unfold s; destruct negative; reflexivity).
  assert (Hy4 : substring 0 4 s = pad4 y) by (unfold s; destruct negative; reflexivity).
  assert (Hm2 : substring 4 2 s = pad2 m) by (unfold s; destruct negative; reflexivity).
  assert (Hd2 : substring 6 2 s = pad2 d) by (unfold s; destruct negative; reflexivity).
  assert (Hh2 : substring 9 2 s = pad2 hh) by (unfold s; destruct negative; reflexivity).
  assert (Hi2 : substring 11 2 s = pad2 mi) by (unfold s; destruct negative; reflexivity).
  assert (Hs2 : substring 13 2 s = pad2 ss) by (unfold s; destruct negative; reflexivity).
  assert (Ho2 : substring 16 2 s = pad2 oh) by (unfold s; destruct negative; reflexivity).
  assert (Hn2 : substring 18 2 s = pad2 om) by (unfold s; destruct negative; reflexivity).
  rewrite Hlen, H08, H81, H96, Hsg, H164, Hy4, Hm2, Hd2, Hh2, Hi2, Hs2, Ho2, Hn2.
  assert (Hdim : days_in_month y m ≤ 31).
  { unfold days_in_month. repeat case_match; lia. }
  rewrite digits_value_pad4 by lia. rewrite !digits_value_pad2 by lia.
  assert (Hdig1 : all_digits (pad4 y +:+ pad2 m +:+ pad2 d) = true).
  { unfold all_digits. cbv [pad4 pad2 String.append]. cbn [list_ascii_of_string forallb].
    by rewrite !digit_char_is_digit. }
  assert (Hdig2 : all_digits (pad2 hh +:+ pad2 mi +:+ pad2 ss) = true).
  { unfold all_digits. cbv [pad2 String.append]. cbn [list_ascii_of_string forallb].
    by rewrite !digit_char_is_digit. }
  assert (Hdig3 : all_digits (pad2 oh +:+ pad2 om) = true).
  { unfold all_digits. cbv [pad2 String.append]. cbn [list_ascii_of_string forallb].
    by rewrite !digit_char_is_digit. }
  rewrite Hdig1, Hdig2, Hdig3.
  assert (Hsign : (String.eqb (if negative then "-" else "+") "+"
                   || String.eqb (if negative then "-" else "+") "-") = true)
    by (by destruct negative).
  rewrite Hsign. cbn [Nat.eqb andb String.eqb Ascii.eqb Bool.eqb].
  assert (Hvalid : (1 <=? y) && (1 <=? m) && (m <=? 12) && (1 <=? d)
                   && (d <=? days_in_month y m) && (hh <=? 23) && (mi <=? 59)
                   && (ss <=? 59) && (oh <=? 23) && (om <=? 59) = true).
  { repeat (apply andb_true_iff; split); apply Z.leb_le; lia. }
  rewrite Hvalid. by destruct negative.
Qed.

End VendorFormat.

Section TeamCityClaim.
Import PyStr PyStrFacts.

Variable strptime : string → option aware_datetime.

(** C9 amended: the build-details operation hands back the provider's
    fields as they came, and the normalisation is [parse_iso_teamcity],
    which the component assembler applies to the finish date. Its result is
    always empty or of the normalised UTC shape; an empty or unparseable
    input gives the empty string; a parsed timestamp gives the ISO-8601 UTC
    rendering, with [Z], of its instant; and every timestamp of the vendor
    form [YYYYMMDDThhmmss±hhmm] with valid fields is so rendered, as
    [20251204T141343+0000] is to [2025-12-04T14:13:43Z]. *)
Theorem parse_iso_teamcity_normalizes (s : string) :
  (parse_iso_teamcity strptime s = "" ∨
   is_iso_utc_z (parse_iso_teamcity strptime s) = true) ∧
  parse_iso_teamcity strptime "" = "" ∧
  (strptime s = None → parse_iso_teamcity strptime s = "") ∧
  (∀ dt, s ≠ "" → strptime s = Some dt →
         year_in_range (ad_local_us dt - ad_offset_us dt) = true →
         parse_iso_teamcity strptime s
           = isoformat_z (ad_local_us dt - ad_offset_us dt)) ∧
  (∀ y m d hh mi ss negative oh om,
     vendor_fields_valid y m d hh mi ss oh om →
     year_in_range (vendor_instant y m d hh mi ss negative oh om) = true →
     parse_iso_teamcity strptime_vendor (render_vendor y m d hh mi ss negative oh om)
       = isoformat_z (vendor_instant y m d hh mi ss negative oh om)) ∧
  parse_iso_teamcity strptime_vendor "20251204T141343+0000" = "2025-12-04T14:13:43Z" ∧
  (∀ rest_base token build_id code fields,
     rest_base ≠ "" → token ≠ "" → build_id ≠ 0 →
     code ≠ 401 → code ≠ 403 → ¬ (400 ≤ code < 600) →
     teamcity_get_build_details rest_base token (Some build_id)
       (HttpReply code (Some fields)) = Returned (Some fields)) ∧
  (∀ tc_build,
     build_finished_at strptime tc_build =
     parse_iso_teamcity strptime
       (or_else (str_field "finishDate" tc_build)
                (str_field "finishOnAgentDate" tc_build))).
Proof.
  repeat split.
  - unfold parse_iso_teamcity. destruct (nonempty s); [|by left]. cbn [negb].
    destruct (strptime s) as [dt|]; [|by left].
    destruct (year_in_range _); [right; apply isoformat_z_shape | by left].
  - unfold parse_iso_teamcity. destruct (nonempty s); [|done]. cbn [negb].
    by intros ->.
  - intros dt Hs Hdt Hr. unfold parse_iso_teamcity.
    apply nonempty_true in Hs. by rewrite Hs, Hdt, Hr.
  - intros y m d hh mi ss negative oh om Hvalid Hr.
    unfold parse_iso_teamcity.
    assert (Hne : nonempty (render_vendor y m d hh mi ss negative oh om) = true)
      by reflexivity.
    rewrite Hne, strptime_vendor_render by done. cbn [negb ad_local_us ad_offset_us].
    unfold vendor_instant in Hr |- *. by rewrite Hr.
  - intros rest_base token build_id code fields Hb Ht Hid H401 H403 Hrange.
    unfold teamcity_get_build_details.
    apply nonempty_true in Hb, Ht. rewrite Hb, Ht.
    apply Z.eqb_neq in Hid, H401, H403. rewrite Hid, H401, H403. cbn [negb andb orb].
    destruct ((400 <=? code) && (code <? 600)) eqn:E; [|done].
    apply andb_true_iff in E as [?%Z.leb_le ?%Z.ltb_lt]. lia.
Qed.

End TeamCityClaim.

(** C9 as stated fails: the build-details operation returns the finish and
    start dates exactly as the CI server sent them, in the compact vendor
    form, which is not the normalised UTC form. *)
Lemma build_details_are_raw :
  ∃ details,
    teamcity_get_build_details "https://ci.example.org/app/rest" "token" (Some 4211)
      (HttpReply 200 (Some example_build_details)) = Returned (Some details) ∧
    str_field "finishDate" details = "20251204T141343+0000" ∧
    str_field "startDate" details = "20251204T140102+0000" ∧
    is_iso_utc_z (str_field "finishDate" details) = false ∧
    is_iso_utc_z (str_field "startDate" details) = false ∧
    str_field "finishDate" details ≠ "2025-12-04T14:13:43Z".
Proof.
  exists example_build_details. repeat split; try reflexivity. discriminate.
Qed.

(** ** Release history: retention *)

Section RetentionFacts.
Import PyStr PyStrFacts.

Variable fromisoformat : string → option datetime.

Lemma classify_archive cutoff_iso line ev :
  classify_line cutoff_iso line = ToArchive ev ↔
  line = Some ev ∧ older_than cutoff_iso ev.
Proof.
  unfold classify_line, older_than. split.
  - destruct line as [[| | | | |fields]|]; try discriminate.
    destruct (dict_get "at" fields) as [[| | |event_at| |]|] eqn:Hat;
      try (repeat case_match; discriminate).
    destruct (nonempty event_at && lt event_at cutoff_iso) eqn:Hc; [|discriminate].
    intros [= <-]. apply andb_true_iff in Hc as [Hne Hlt].
    split; [done|]. exists fields, event_at. by rewrite nonempty_true in Hne.
  - intros (-> & fields & event_at & -> & Hat & Hne & Hlt).
    rewrite Hat. apply nonempty_true in Hne. by rewrite Hne, Hlt.
Qed.

Lemma classify_keep_line cutoff_iso line ev :
  classify_line cutoff_iso line = ToKeep ev → line = Some ev ∧ ¬ older_than cutoff_iso ev.
Proof.
  unfold classify_line, older_than.
  destruct line as [[| | | | |fields]|]; try discriminate.
  destruct (dict_get "at" fields) as [v|] eqn:Hat.
  - destruct v as [|b|n|event_at|items|fs].
    all: try (destruct (truthy _) eqn:Ht; [discriminate|]; intros [= <-]; split; [done|];
              intros (f' & a' & [= <-] & Hat' & _); congruence).
    destruct (nonempty event_at && lt event_at cutoff_iso) eqn:Hc; [discriminate|].
    intros [= <-]. split; [done|].
    intros (f' & a' & [= <-] & Hat' & Hne & Hlt).
    rewrite Hat in Hat'. injection Hat' as <-.
    apply nonempty_true in Hne. by rewrite Hne, Hlt in Hc.
  - intros [= <-]. split; [done|]. intros (f' & a' & [= <-] & Hat' & _). congruence.
Qed.

Lemma events_to_archive_spec cutoff_iso lines ev :
  In ev (events_to_archive cutoff_iso lines) ↔
  In (Some ev) lines ∧ older_than cutoff_iso ev.
Proof.
  unfold events_to_archive. rewrite in_flat_map. split.
  - intros (line & Hin & Hev).
    destruct (classify_line cutoff_iso line) as [ev'| |] eqn:Hc; try done.
    destruct Hev as [<- | []]. apply classify_archive in Hc as [-> Hold]. done.
  - intros [Hin Hold]. exists (Some ev). split; [done|].
    assert (classify_line cutoff_iso (Some ev) = ToArchive ev) as ->
      by (by apply classify_archive).
    by left.
Qed.

Lemma events_to_keep_in cutoff_iso lines ev :
  In ev (events_to_keep cutoff_iso lines) →
  In (Some ev) lines ∧ ¬ older_than cutoff_iso ev.
Proof.
  unfold events_to_keep. rewrite in_flat_map.
  intros (line & Hin & Hev).
  destruct (classify_line cutoff_iso line) as [|ev'|] eqn:Hc; try done.
  destruct Hev as [<- | []]. apply classify_keep_line in Hc as [-> Hnold]. done.
Qed.

(** The rewritten log is the old one with lines removed, in the same
    order. *)
Lemma events_to_keep_sublist cutoff_iso lines :
  sublist (map Some (events_to_keep cutoff_iso lines)) lines.
Proof.
  unfold events_to_keep. induction lines as [|line lines IH]; [constructor|].
  cbn [flat_map]. destruct (classify_line cutoff_iso line) as [|ev|] eqn:Hc.
  - by apply sublist_cons.
  - apply classify_keep_line in Hc as [-> _]. cbn. by apply sublist_skip.
  - by apply sublist_cons.
Qed.

(** A well-formed event line is an object whose [at] is absent, falsy, or
    a string; the scan never loses such a line. *)
Definition well_formed_event (ev : json) : Prop :=
  ∃ fields, ev = JObj fields ∧
    match dict_get "at" fields with
    | Some (JStr _) | None => True
    | Some v => truthy v = false
    end.

Lemma well_formed_not_dropped cutoff_iso ev :
  well_formed_event ev →
  classify_line cutoff_iso (Some ev) = ToArchive ev ∨
  classify_line cutoff_iso (Some ev) = ToKeep ev.
Proof.
  intros (fields & -> & Hat). unfold classify_line.
  destruct (dict_get "at" fields) as [[| | |event_at| |]|]; try (rewrite Hat; by right).
  - destruct (nonempty event_at && lt event_at cutoff_iso); auto.
  - by right.
Qed.

Lemma days_lt_one delta : (delta / US_PER_DAY <? 1) = true ↔ delta < US_PER_DAY.
Proof.
  rewrite Z.ltb_lt. unfold US_PER_DAY, US_PER_SECOND.
  pose proof (Z.div_mod delta (86400 * 1000000) ltac:(lia)).
  pose proof (Z.mod_pos_bound delta (86400 * 1000000) ltac:(lia)).
  lia.
Qed.

(** X1: the once-a-day guard. When [lastCleanup] parses to an instant
    with an offset, the call changes nothing if less than 24 hours have
    passed since (a [lastCleanup] in the future counts as less), and it is
    not skipped once 24 hours have passed. *)
Theorem retention_daily_guard (clock : retention_clock) (st : history_store)
    (r : retention_info) (last_cleanup : string) (last_dt : datetime) :
  idx_retention (hs_index st) = Some r →
  ret_lastCleanup r = Some last_cleanup →
  last_cleanup ≠ "" →
  fromisoformat (py_replace "Z" "+00:00" last_cleanup) = Some last_dt →
  dt_aware last_dt = true →
  (now_check clock - dt_us last_dt < US_PER_DAY →
     _apply_retention_policy fromisoformat clock st = Returned st) ∧
  (US_PER_DAY ≤ now_check clock - dt_us last_dt →
     cleanup_skipped fromisoformat clock (hs_index st) = false).
Proof.
  intros Hr Hlc Hne Hparse Haware.
  assert (Hskip : cleanup_skipped fromisoformat clock (hs_index st)
                  = ((now_check clock - dt_us last_dt) / US_PER_DAY <? 1)).
  { unfold cleanup_skipped. rewrite Hr. destruct r as [days lc]. cbn in Hlc. subst lc.
    apply nonempty_true in Hne. by rewrite Hne, Hparse, Haware. }
  split.
  - intros Hlt. unfold _apply_retention_policy.
    rewrite Hskip. apply days_lt_one in Hlt. by rewrite Hlt.
  - intros Hge. rewrite Hskip. apply not_true_iff_false.
    rewrite days_lt_one. lia.
Qed.

(** X2: a run that finds nothing to archive leaves the store as it is:
    the log keeps every line, undecodable ones included, and the index
    keeps its counter and its [lastCleanup], so the daily guard is not
    armed by such a run. *)
Theorem retention_nothing_old (clock : retention_clock) (st : history_store)
    (lines : list (option json)) :
  cleanup_skipped fromisoformat clock (hs_index st) = false →
  year_in_range (cutoff_of clock (hs_index st)) = true →
  hs_events st = Some lines →
  (∀ ev, In (Some ev) lines →
         ¬ older_than (isoformat_z (cutoff_of clock (hs_index st))) ev) →
  _apply_retention_policy fromisoformat clock st = Returned st.
Proof.
  intros Hskip Hrange Hlines Hnone. unfold _apply_retention_policy.
  rewrite Hskip, Hrange, Hlines. cbn [negb].
  destruct (events_to_archive _ lines) as [|ev old] eqn:Hold; [done|].
  exfalso. assert (Hin : In ev (events_to_archive
                    (isoformat_z (cutoff_of clock (hs_index st))) lines))
    by (rewrite Hold; by left).
  apply events_to_archive_spec in Hin as [Hin Ho]. by apply (Hnone ev).
Qed.

(** X3: a run that finds old events moves exactly those to the archive
    file of the cutoff's month, appending to what the file holds, and
    touches no other archive file. The rewritten log holds no old event,
    keeps every other well-formed event line in order, and nothing that
    was not in the log; the counter of the index becomes the number of
    lines kept and [lastCleanup] the current time, when the index has both
    sections. *)
Theorem retention_archives_old (clock : retention_clock) (st : history_store)
    (lines : list (option json)) (old_ev : json) :
  cleanup_skipped fromisoformat clock (hs_index st) = false →
  year_in_range (cutoff_of clock (hs_index st)) = true →
  hs_events st = Some lines →
  In (Some old_ev) lines →
  older_than (isoformat_z (cutoff_of clock (hs_index st))) old_ev →
  let cutoff := cutoff_of clock (hs_index st) in
  let cutoff_iso := isoformat_z cutoff in
  ∃ st' kept archived,
    _apply_retention_policy fromisoformat clock st = Returned st' ∧
    hs_events st' = Some (map Some kept) ∧
    hs_archive st' !! archive_file_name cutoff
      = Some (default [] (hs_archive st !! archive_file_name cutoff) ++ archived) ∧
    (∀ other, other ≠ archive_file_name cutoff →
              hs_archive st' !! other = hs_archive st !! other) ∧
    (∀ ev, In ev archived ↔ In (Some ev) lines ∧ older_than cutoff_iso ev) ∧
    (∀ ev, In ev kept → In (Some ev) lines ∧ ¬ older_than cutoff_iso ev) ∧
    (∀ ev, In (Some ev) lines → well_formed_event ev → ¬ older_than cutoff_iso ev →
           In ev kept) ∧
    sublist (map Some kept) lines ∧
    (∀ r total, idx_retention (hs_index st) = Some r →
                idx_totalEvents (hs_index st) = Some total →
       idx_totalEvents (hs_index st') = Some (Z.of_nat (length kept)) ∧
       idx_retention (hs_index st')
         = Some {| ret_days := ret_days r;
                   ret_lastCleanup := Some (now_stamp clock) |}).
Proof.
  intros Hskip Hrange Hlines Hin Hold. cbv zeta.
  set (cutoff := cutoff_of clock (hs_index st)).
  set (cutoff_iso := isoformat_z cutoff).
  set (archived := events_to_archive cutoff_iso lines).
  set (kept := events_to_keep cutoff_iso lines).
  assert (Hne : archived ≠ []).
  { intros Hnil. assert (In old_ev archived) as Hi
      by (by apply events_to_archive_spec).
    rewrite Hnil in Hi. destruct Hi. }
  exists {| hs_index := index_after_cleanup clock (hs_index st) (length kept);
            hs_events := Some (map Some kept);
            hs_archive :=
              <[archive_file_name cutoff :=
                  default [] (hs_archive st !! archive_file_name cutoff) ++ archived]>
                (hs_archive st) |}, kept, archived.
  split.
  { unfold _apply_retention_policy. rewrite Hskip, Hrange, Hlines. cbn [negb].
    fold cutoff cutoff_iso archived kept.
    by destruct archived as [|a more]. }
  cbn [hs_events hs_archive hs_index].
  split; [done|]. split; [by rewrite lookup_insert_eq|].
  split; [intros other Hother; by rewrite lookup_insert_ne|].
  split; [intros ev; apply events_to_archive_spec|].
  split; [intros ev; apply events_to_keep_in|].
  split; [|split; [apply events_to_keep_sublist|]].
  - intros ev Hev Hwf Hnold. unfold kept, events_to_keep. apply in_flat_map.
    exists (Some ev). split; [done|].
    destruct (well_formed_not_dropped cutoff_iso ev Hwf) as [Hc|Hc]; rewrite Hc.
    + apply classify_archive in Hc as [_ Ho]. done.
    + by left.
  - intros r total Hr Htot. unfold index_after_cleanup. by rewrite Hr, Htot.
Qed.

End RetentionFacts.

(** Witness for X1: the last cleanup was twelve hours ago. *)
Lemma retention_daily_guard_witness :
  _apply_retention_policy example_fromisoformat example_clock
    (example_store_cleaned [Some example_old_event; Some example_recent_event])
  = Returned (example_store_cleaned [Some example_old_event; Some example_recent_event]).
Proof.
  refine (proj1 (retention_daily_guard example_fromisoformat example_clock
                   (example_store_cleaned [Some example_old_event; Some example_recent_event])
                   {| ret_days := Some 90; ret_lastCleanup := Some "2026-11-02T12:00:00Z" |}
                   "2026-11-02T12:00:00Z"
                   {| dt_us := days_from_civil 2026 11 2 * US_PER_DAY
                               + 12 * 3600 * US_PER_SECOND;
                      dt_aware := true |}
                   eq_refl eq_refl _ eq_refl eq_refl) _).
  - discriminate.
  - vm_compute. reflexivity.
Defined.

(** Witness for X2: the log holds a recent event and a blank line. *)
Lemma retention_nothing_old_witness :
  _apply_retention_policy example_fromisoformat example_clock
    (example_store [Some example_recent_event; None])
  = Returned (example_store [Some example_recent_event; None]).
Proof.
  apply (retention_nothing_old example_fromisoformat example_clock
           (example_store [Some example_recent_event; None])
           [Some example_recent_event; None]); try reflexivity.
  intros ev [[= <-] | [[=] | []]].
  intros (fields & event_at & [= <-] & [= <-] & _ & Hlt). vm_compute in Hlt. discriminate Hlt.
Defined.

(** Witness for X3: an old event, a blank line and a recent event. *)
Lemma retention_archives_old_witness :
  ∃ st',
    _apply_retention_policy example_fromisoformat example_clock
      (example_store [Some example_old_event; None; Some example_recent_event])
      = Returned st' ∧
    hs_events st' = Some [Some example_recent_event] ∧
    hs_archive st' !! "events-2026-08.jsonl" = Some [example_old_event] ∧
    idx_totalEvents (hs_index st') = Some 1.
Proof.
  destruct (retention_archives_old example_fromisoformat example_clock
              (example_store [Some example_old_event; None; Some example_recent_event])
              [Some example_old_event; None; Some example_recent_event]
              example_old_event)
    as (st' & kept & archived & Hrun & _); try reflexivity.
  - by left.
  - eexists _, _. split; [reflexivity|]. split; [reflexivity|]. split; [discriminate | reflexivity].
  - exists st'. split; [exact Hrun|].
    vm_compute in Hrun. injection Hrun as <-. repeat split.
Defined.

(** ** Atomicity of the JSONL append *)

Section AppendAtomicity.

Lemma append_attempt_existing_log l t events fault :
  fault ≠ ReplaceFailsLogRemoved →
  let r := append_attempt {| log_file := Some l; tmp_file := t |} events fault in
  (snd r = true ∧ log_file (fst r) = Some (l ++ lines_for events)
   ∧ tmp_file (fst r) = None) ∨
  (snd r = false ∧ log_file (fst r) = Some l).
Proof.
  intros Hf. unfold append_attempt. cbn.
  destruct fault as [|[k|]|n| |]; cbn; auto. done.
Qed.

Lemma append_loop_existing_log remaining attempt faults cleanup_ok events l t :
  (∀ i, faults i ≠ ReplaceFailsLogRemoved) →
  let r := append_loop remaining attempt faults cleanup_ok events
             {| log_file := Some l; tmp_file := t |} in
  (snd r = false ∧ log_file (fst r) = Some l) ∨
  (snd r = true ∧ remaining = 0%nat ∧ fst r = {| log_file := Some l; tmp_file := t |}) ∨
  (snd r = true ∧ log_file (fst r) = Some (l ++ lines_for events)
   ∧ tmp_file (fst r) = None).
Proof.
  intros Hf. revert attempt t.
  induction remaining as [|rem IH]; intros attempt t; cbv zeta.
  - right. left. done.
  - cbn [append_loop].
    pose proof (append_attempt_existing_log l t events (faults attempt) (Hf attempt)) as Hstep.
    cbv zeta in Hstep.
    destruct (append_attempt {| log_file := Some l; tmp_file := t |} events (faults attempt))
      as [fs' ok]. cbn [fst snd] in Hstep.
    destruct Hstep as [(-> & Hlog & Htmp) | (-> & Hlog)].
    + right. right. done.
    + destruct rem as [|rem'].
      * left. destruct cleanup_ok; done.
      * destruct fs' as [lg tm]. cbn in Hlog. subst lg.
        specialize (IH (S attempt) tm). cbv zeta in IH.
        destruct IH as [IH | [(_ & [=] & _) | IH]]; auto.
Qed.

(** X4: appending to an existing log is all or nothing, whatever fails
    on the way (short of the fallback that unlinks the log): a call that
    raises leaves the log exactly as it was, and a call that returns has
    appended the batch's events with an id exactly once, however many
    attempts it took. *)
Theorem atomic_append_all_or_nothing (max_retries : nat) (faults : nat → io_fault)
    (cleanup_ok : bool) (events : list event) (l : list event)
    (t : option (list event)) :
  (∀ i, faults i ≠ ReplaceFailsLogRemoved) →
  (0 < max_retries)%nat →
  let r := atomic_append_jsonl max_retries faults cleanup_ok events
             {| log_file := Some l; tmp_file := t |} in
  (snd r = false → log_file (fst r) = Some l) ∧
  (snd r = true → log_file (fst r) = Some (l ++ lines_for events)
                  ∧ tmp_file (fst r) = None).
Proof.
  intros Hf Hpos. cbv zeta. unfold atomic_append_jsonl.
  pose proof (append_loop_existing_log max_retries 0 faults cleanup_ok events l t Hf) as H.
  cbv zeta in H.
  destruct H as [(Hr & Hlog) | [(Hr & Hz & _) | (Hr & Hlog & Htmp)]].
  - split; [done | rewrite Hr; discriminate].
  - lia.
  - split; [rewrite Hr; discriminate | done].
Qed.

End AppendAtomicity.

(** Witness for X4: the first attempt fails after writing one line to the
    temp file, the second goes through; the log gains the batch once. *)
Lemma atomic_append_all_or_nothing_witness :
  let r := atomic_append_jsonl 5
             (λ i, match i with O => AppendFails 1 | _ => NoFault end) true
             [sample_event; sample_event_no_id]
             {| log_file := Some [sample_event]; tmp_file := None |} in
  snd r = true ∧ log_file (fst r) = Some [sample_event; sample_event].
Proof.
  cbv zeta. split; [reflexivity|].
  refine (proj1 (proj2 (atomic_append_all_or_nothing 5
            (λ i, match i with O => AppendFails 1 | _ => NoFault end) true
            [sample_event; sample_event_no_id] [sample_event] None _ _) _)).
  - intros [|i]; discriminate.
  - lia.
  - reflexivity.
Defined.
